(** * file_organizar.py: classifier, unique-name resolver and organizer worker

    A shallow embedding of [categorize_file], [get_unique_name] and
    [OrganizerWorker.run], and the properties of them that the specification
    states.

    Python values are modelled as follows.
    - [str] is a list of Unicode code points ([N]); literals of the source are
      written with [lit].
    - [int] counters ([idx], [counter], [moved_count], [total]) are [nat].
    - The ordered dict [FILE_TYPES] is an association list in declaration
      order.
    - The tuples put on [queue_out] are the constructors of [event].
    - The operating system (os, shutil, time) is an interface, [OS], over an
      abstract world; the worker is a state-and-exception computation over
      that world.  The world changes through the calls of the worker only.
    - The cancellation flag is set from another thread: the answers of
      [self.stopped()], one per iteration, are an input of the run. *)

From Stdlib Require Import NArith Lia DecimalString DecimalNat.
From stdpp Require Import base list strings.

(** ** Python strings *)

Module Str.

Local Open Scope N_scope.

Definition str := list N.

(** A literal of the source (all of them are ASCII, one code point per
    byte). *)
Definition lit (s : string) : str :=
  map Ascii.N_of_ascii (String.list_ascii_of_string s).

(** [str.lower()], one code point at a time.  The rows are those of the
    Unicode case tables whose source or image contains an ASCII character:
    A-Z, U+0130 (dotted capital I, lowered to i followed by U+0307) and
    U+212A (KELVIN SIGN, lowered to k).  Every other code point is left as
    it is: CPython maps it to code points above U+007F only. *)
Definition lower_cp (c : N) : str :=
  if (65 <=? c) && (c <=? 90) then [c + 32]
  else if c =? 304 then [105; 775]
  else if c =? 8490 then [107]
  else [c].

Definition lower (s : str) : str := flat_map lower_cp s.

(** [str.upper()], in the same way: a-z, and the code points above U+007F
    whose upper case contains an ASCII letter (sharp s, dotless i,
    U+0149, long s, U+01F0, U+1E96..U+1E9A, the ligatures
    U+FB00..U+FB06). *)
Definition upper_cp (c : N) : str :=
  if (97 <=? c) && (c <=? 122) then [c - 32]
  else if c =? 223 then [83; 83]
  else if c =? 305 then [73]
  else if c =? 329 then [700; 78]
  else if c =? 383 then [83]
  else if c =? 496 then [74; 780]
  else if c =? 7830 then [72; 817]
  else if c =? 7831 then [84; 776]
  else if c =? 7832 then [87; 778]
  else if c =? 7833 then [89; 778]
  else if c =? 7834 then [65; 702]
  else if c =? 64256 then [70; 70]
  else if c =? 64257 then [70; 73]
  else if c =? 64258 then [70; 76]
  else if c =? 64259 then [70; 70; 73]
  else if c =? 64260 then [70; 70; 76]
  else if c =? 64261 then [83; 84]
  else if c =? 64262 then [83; 84]
  else [c].

Definition upper (s : str) : str := flat_map upper_cp s.

Definition is_ascii (s : str) : Prop := Forall (fun c => c < 128) s.

(** [s.endswith(suffix)] for one suffix: the last [len(suffix)] code points
    of [s] are compared with [suffix]. *)
Definition endswith (s suffix : str) : bool :=
  (length suffix <=? length s)%nat
  && bool_decide (drop (length s - length suffix) s = suffix).

(** [s.endswith(tuple)]: some member of the tuple is a suffix. *)
Definition endswith_tuple (s : str) (suffixes : list str) : bool :=
  existsb (endswith s) suffixes.

(** [str(n)] for a non-negative [int]. *)
Definition of_nat (n : nat) : str :=
  lit (NilEmpty.string_of_uint (Nat.to_uint n)).

End Str.
Import Str.

(** ** Configuration *)

Definition FILE_TYPES : list (str * list str) :=
  [ (lit "Images",
      map lit [".jpg"; ".jpeg"; ".png"; ".gif"; ".bmp"; ".svg"; ".webp"]%string);
    (lit "Documents",
      map lit [".pdf"; ".docx"; ".doc"; ".txt"; ".pptx"; ".ppt"; ".xlsx";
               ".xls"; ".odt"; ".rtf"]%string);
    (lit "Videos",
      map lit [".mp4"; ".mov"; ".avi"; ".mkv"; ".wmv"]%string);
    (lit "Music",
      map lit [".mp3"; ".wav"; ".aac"; ".flac"; ".ogg"]%string);
    (lit "Archives",
      map lit [".zip"; ".rar"; ".7z"; ".tar"; ".gz"]%string) ].

Definition OTHER_FOLDER_NAME : str := lit "Others".

(** ** The classifier *)

(** The [for cat, exts in FILE_TYPES.items()] loop of [categorize_file], over
    the items still to visit. *)
Fixpoint categorize_items (items : list (str * list str)) (lower : str)
  : option str :=
  match items with
  | [] => None
  | (cat, exts) :: rest =>
      if endswith_tuple lower exts then Some cat
      else categorize_items rest lower
  end.

Definition categorize_file (filename : str) : option str :=
  let lower := Str.lower filename in
  categorize_items FILE_TYPES lower.

(** What the specification calls a case-insensitive suffix: [ext] is a suffix
    of [filename] once both are brought to lower case. *)
Definition ci_suffix (ext filename : str) : Prop :=
  Str.lower ext `suffix_of` Str.lower filename.

(** A category matches a filename when one of its extensions is a
    case-insensitive suffix of it. *)
Definition category_matches (exts : list str) (filename : str) : Prop :=
  Exists (fun ext => ci_suffix ext filename) exts.

(** Every extension of the table is in lower case already, which is what
    lets [categorize_file] bring only the filename to lower case. *)
Definition lowercase_table (items : list (str * list str)) : Prop :=
  Forall (fun item => Forall (fun ext => Str.lower ext = ext) item.2) items.

(** [cat] is the first category of [items] that matches [filename]. *)
Definition first_match (items : list (str * list str)) (cat filename : str)
  : Prop :=
  exists before exts after,
    items = before ++ (cat, exts) :: after
    /\ category_matches exts filename
    /\ Forall (fun item => ~ category_matches item.2 filename) before.

Definition no_match (items : list (str * list str)) (filename : str) : Prop :=
  Forall (fun item => ~ category_matches item.2 filename) items.

(** ** Paths (posixpath) *)

Module Path.

Local Open Scope N_scope.

Definition sep : N := 47.     (* "/" *)
Definition extsep : N := 46.  (* "." *)

(** [s.rfind(c)] for a single character: the index of its last occurrence,
    [None] where Python answers -1. *)
Fixpoint rfind (c : N) (s : str) : option nat :=
  match s with
  | [] => None
  | x :: t =>
      match rfind c t with
      | Some i => Some (S i)
      | None => if x =? c then Some 0%nat else None
      end
  end.

(** [os.path.join(a, b)]: an absolute [b] replaces [a]; a separator is
    inserted unless [a] is empty or already ends with one. *)
Definition join (a b : str) : str :=
  if bool_decide (head b = Some sep) then b
  else match last a with
       | Some z => if z =? sep then a ++ b else a ++ sep :: b
       | None => a ++ b
       end.

(** [os.path.splitext(p)] (genericpath._splitext): the extension starts at
    the last dot of the last path component, provided that some character
    other than a dot stands between the start of that component and the
    dot; the leading dots of a name are never an extension. *)
Definition splitext (p : str) : str * str :=
  let filenameIndex := match rfind sep p with Some i => S i | None => 0%nat end in
  match rfind extsep p with
  | Some dotIndex =>
      if (filenameIndex <=? dotIndex)%nat
         && existsb (fun c => negb (c =? extsep))
              (take (dotIndex - filenameIndex) (drop filenameIndex p))
      then (take dotIndex p, drop dotIndex p)
      else (p, [])
  | None => (p, [])
  end.

(** The specification's wording: the name is split at its last dot. *)
Definition split_at_last_dot (p : str) : str * str :=
  match rfind extsep p with
  | Some dotIndex => (take dotIndex p, drop dotIndex p)
  | None => (p, [])
  end.

End Path.

(** ** The unique-name resolver *)

Section Probe.

(** [exists_ candidate] stands for
    [os.path.exists(os.path.join(dest_dir, candidate))]. *)
Variable exists_ : str -> bool.
Variables base ext : str.

(** [f"{base} ({counter}){ext}"] *)
Definition numbered (counter : nat) : str :=
  base ++ lit " (" ++ of_nat counter ++ lit ")" ++ ext.

(** The [while] loop of [get_unique_name] on its two variables, [candidate]
    and [counter]; [fuel] bounds the number of tests of the condition, and
    [None] says that the bound was reached with the loop still running. *)
Fixpoint probe (fuel : nat) (candidate : str) (counter : nat) : option str :=
  match fuel with
  | O => None
  | S fuel' =>
      if exists_ candidate
      then probe fuel' (numbered counter) (S counter)
      else Some candidate
  end.

End Probe.

(** [get_unique_name] against a snapshot of the destination directory, given
    as its existence test. *)
Definition get_unique_name_in (exists_ : str -> bool) (fuel : nat)
    (filename : str) : option str :=
  let '(base, ext) := Path.splitext filename in
  probe exists_ base ext fuel filename 1.

(** The candidate names in the order the specification lists them: the name
    itself, then the numbered ones, stem and extension coming from [split]. *)
Definition candidate_with (split : str -> str * str) (filename : str)
    (n : nat) : str :=
  match n with
  | O => filename
  | S _ => let '(stem, ext) := split filename in numbered stem ext n
  end.

Definition candidate := candidate_with Path.splitext.

(** ** The operating system *)

(** An exception, as far as the worker looks at it: [exc_str e] is [str(e)]. *)
Record Exception := { exc_str : str }.

(** The calls the worker makes, over a world [W].  Calls that only read
    return a value; [os.makedirs] and [shutil.move] return the world they
    leave behind together with the exception they raised, if any (a call
    that fails may still have changed the world).  A world holds finitely
    many entries: [names_under d w] lists every name whose path under [d]
    exists in [w]. *)
Class OS (W : Type) := {
  os_listdir : str -> W -> Exception + list str;
  os_path_isfile : str -> W -> bool;
  os_path_exists : str -> W -> bool;
  os_makedirs_exist_ok : str -> W -> option Exception * W;
  shutil_move : str -> str -> W -> option Exception * W;
  time_strftime : str -> W -> str;
  names_under : str -> W -> list str;
  names_under_complete d w n :
    os_path_exists (Path.join d n) w = true -> n ∈ names_under d w
}.

Definition get_unique_name `{OS W} (dest_dir filename : str) (w : W) : str :=
  let exists_ c := os_path_exists (Path.join dest_dir c) w in
  let fuel := S (length (names_under dest_dir w)) in
  (* the bound is never reached: see [get_unique_name_fuel] *)
  default filename (get_unique_name_in exists_ fuel filename).

(** The names of a listing that are regular files:
    [[f for f in names if os.path.isfile(os.path.join(source, f))]]. *)
Definition regular_files `{OS W} (source : str) (w : W) (names : list str)
  : list str :=
  List.filter (fun f => os_path_isfile (Path.join source f) w) names.

(** ** The worker *)

(** [x or y] on an optional string: [None] and the empty string are false. *)
Definition py_or (x : option str) (y : str) : str :=
  match x with
  | Some [] | None => y
  | Some v => v
  end.

(** The items put on [queue_out]: [("error", msg)], [("start", total)],
    [("log", text)], [("progress", idx)] and [("done", moved_count)]. *)
Inductive event :=
  | Error (msg : str)
  | Start (total : nat)
  | LogLine (text : str)
  | Progress (idx : nat)
  | Done (moved : nat).

(** A call that changes the file system, with the exception it raised. *)
Inductive syscall :=
  | Makedirs (path : str) (raised : option Exception)
  | Move (src dst : str) (raised : option Exception).

(** What a run works on: the world, the queue it writes to, its local
    variable [moved_count] and, as a ghost, the log of the mutating calls
    made so far. *)
Record state (W : Type) := State {
  world : W;
  queue_out : list event;
  moved_count : nat;
  syscalls : list syscall
}.
Arguments State {W}.
Arguments world {W}.
Arguments queue_out {W}.
Arguments moved_count {W}.
Arguments syscalls {W}.

Definition initial {W} (w : W) : state W :=
  State w [] 0%nat [].

(** A statement either completes with a value or raises. *)
Inductive result (A : Type) :=
  | Returned (a : A)
  | Raised (e : Exception).
Arguments Returned {A}.
Arguments Raised {A}.

Definition M (W A : Type) : Type := state W -> result A * state W.

#[global] Instance M_ret {W} : MRet (M W) :=
  fun A a s => (Returned a, s).

#[global] Instance M_bind {W} : MBind (M W) :=
  fun A B k m s =>
    match m s with
    | (Returned a, s') => k a s'
    | (Raised e, s') => (Raised e, s')
    end.

Section Worker.

Context `{OS W}.

(** [try: body except Exception as e: handler(e)] *)
Definition try_except {A} (body : M W A) (handler : Exception -> M W A)
  : M W A :=
  fun s =>
    match body s with
    | (Raised e, s') => handler e s'
    | r => r
    end.

(** [self.queue_out.put(ev)] *)
Definition put (ev : event) : M W unit :=
  fun s => (Returned tt,
            State (world s) (queue_out s ++ [ev]) (moved_count s) (syscalls s)).

(** A call that reads the world. *)
Definition ask {A} (f : W -> A) : M W A :=
  fun s => (Returned (f (world s)), s).

(** A call that may change the world and may raise; it is entered in the
    log. *)
Definition call (f : W -> option Exception * W)
    (entry : option Exception -> syscall) : M W unit :=
  fun s =>
    let '(r, w') := f (world s) in
    let s' := State w' (queue_out s) (moved_count s) (syscalls s ++ [entry r]) in
    match r with
    | None => (Returned tt, s')
    | Some e => (Raised e, s')
    end.

Definition makedirs (path : str) : M W unit :=
  call (os_makedirs_exist_ok path) (Makedirs path).

Definition move (src dst : str) : M W unit :=
  call (shutil_move src dst) (Move src dst).

Definition set_moved_count (n : nat) : M W unit :=
  fun s => (Returned tt, State (world s) (queue_out s) n (syscalls s)).

Definition get_moved_count : M W nat :=
  fun s => (Returned (moved_count s), s).

(** [[f for f in os.listdir(source) if os.path.isfile(os.path.join(source, f))]] *)
Definition list_files (source : str) : M W (list str) :=
  fun s =>
    match os_listdir source (world s) with
    | inl e => (Raised e, s)
    | inr names => (Returned (regular_files source (world s) names), s)
    end.

(** How the body of the [try] statement ends when it does not raise: with
    [continue], or by reaching its end. *)
Inductive ending := Continue | Through.

Definition skip_line (filename : str) : str :=
  lit "[SYS] Skipping (not a file): " ++ filename.

Definition moved_line (timestamp filename category unique_name : str) : str :=
  lit "[SYS] [" ++ timestamp ++ lit "] Moved: " ++ filename
    ++ lit " " ++ [8594%N] ++ lit " " ++ category ++ lit "/" ++ unique_name.

Definition error_line (filename : str) (e : Exception) : str :=
  lit "[SYS] ERROR moving " ++ filename ++ lit ": " ++ exc_str e.

Definition cancelled_line : str :=
  lit "[SYS] Operation cancelled by user.".

Definition listing_error (e : Exception) : str :=
  lit "Failed to list source folder: " ++ exc_str e.

Variables source dest : str.

(** [stopped idx] is what [self.stopped()] answers at the head of iteration
    [idx]: the flag is set from the caller's thread, so the values it takes
    over time are an input of the run. *)
Variable stopped : nat -> bool.

(** Lines 99-113: the body of the [try] statement of one iteration. *)
Definition try_body (idx : nat) (filename : str) : M W ending :=
  let src_path := Path.join source filename in
  isfile ← ask (os_path_isfile src_path);
  if negb isfile then
    put (LogLine (skip_line filename));;
    put (Progress idx);;
    mret Continue
  else
    let category := py_or (categorize_file filename) OTHER_FOLDER_NAME in
    let dest_folder := Path.join dest category in
    makedirs dest_folder;;
    unique_name ← ask (get_unique_name dest_folder filename);
    let dest_path := Path.join dest_folder unique_name in
    move src_path dest_path;;
    n ← get_moved_count;
    set_moved_count (n + 1);;
    timestamp ← ask (time_strftime (lit "%Y-%m-%d %H:%M:%S"));
    put (LogLine (moved_line timestamp filename category unique_name));;
    mret Through.

(** Lines 98-117: one iteration after the cancellation test. *)
Definition iteration (idx : nat) (filename : str) : M W unit :=
  e ← try_except (try_body idx filename)
        (fun e => put (LogLine (error_line filename e));; mret Through);
  match e with
  | Continue => mret tt
  | Through => put (Progress idx)
  end.

(** Lines 93-117: [for idx, filename in enumerate(files, start=1)], from
    index [idx] on. *)
Fixpoint for_files (idx : nat) (files : list str) : M W unit :=
  match files with
  | [] => mret tt
  | filename :: rest =>
      if stopped idx then
        put (LogLine cancelled_line)   (* break *)
      else
        iteration idx filename;;
        for_files (S idx) rest
  end.

(** Lines 89-91: the category directories and the one for the rest. *)
Fixpoint for_cats (cats : list str) : M W unit :=
  match cats with
  | [] => mret tt
  | cat :: rest => makedirs (Path.join dest cat);; for_cats rest
  end.

Definition prepare : M W unit :=
  for_cats (map fst FILE_TYPES);;
  makedirs (Path.join dest OTHER_FOLDER_NAME).

(** [OrganizerWorker.run] *)
Definition run : M W unit :=
  listed ← try_except (files ← list_files source; mret (Some files))
             (fun e => put (Error (listing_error e));; mret None);
  match listed with
  | None => mret tt   (* return *)
  | Some files =>
      let total := length files in
      set_moved_count 0;;
      put (Start total);;
      prepare;;
      for_files 1 files;;
      n ← get_moved_count;
      put (Done n)
  end.

End Worker.

(** ** Reading a run *)

(** The number of files moved: the calls of [shutil.move] that returned. *)
Definition successful_moves (log : list syscall) : nat :=
  length (List.filter
            (fun c => match c with Move _ _ None => true | _ => false end)
            log).

(** The indices of the [Progress] events of a queue, in order. *)
Definition progress_indices (q : list event) : list nat :=
  omap (fun ev => match ev with Progress idx => Some idx | _ => None end) q.

(** The events of a file that was attempted: a [Progress], or a [LogLine]
    other than the one that reports the cancellation. *)
Definition file_event (ev : event) : Prop :=
  match ev with
  | Progress _ => True
  | LogLine text => text <> cancelled_line
  | _ => False
  end.

(** What the loop over [len] files from index [idx] leaves behind:
    [attempted] files were attempted, each with its [LogLine] and
    [Progress]; the loop came to the end of the listing, or it saw the flag
    set at the head of the next iteration and reported it. *)
Definition loop_post {W} (stopped : nat -> bool) (idx len : nat)
    (s s' : state W) : Prop :=
  exists body tail extra attempted,
    queue_out s' = queue_out s ++ body ++ tail
    /\ Forall file_event body
    /\ progress_indices body = seq idx attempted
    /\ (forall i, idx <= i < idx + attempted -> stopped i = false)
    /\ (tail = [] /\ attempted = len
        \/ tail = [LogLine cancelled_line] /\ attempted < len
           /\ stopped (idx + attempted) = true)
    /\ syscalls s' = syscalls s ++ extra
    /\ moved_count s' = moved_count s + successful_moves extra
    /\ successful_moves extra <= attempted.

(** The state in which [run] enters [prepare] when the listing gave
    [files]. *)
Definition started {W} (w : W) (files : list str) : state W :=
  State w [Start (length files)] 0 [].

(** The events a run puts on an empty queue, from world [w]. *)
Definition events `{OS W} (source dest : str) (stopped : nat -> bool) (w : W)
  : list event :=
  queue_out (run source dest stopped (initial w)).2.

(** ** A file system in memory

    An instance of [OS] to run the worker on: the existing paths with their
    kind, in the order a listing enumerates them, the directories in which
    nothing may be created or removed, and a clock.  It covers what the
    worker asks of a POSIX system on normalised paths; moving a directory,
    which the worker never asks for, is answered with an error. *)

Module MemFS.

Inductive kind := File | Dir.

#[global] Instance kind_eq_dec : EqDecision kind.
Proof. solve_decision. Defined.

Record fs := Fs {
  nodes : list (str * kind);
  readonly : list str;
  clock : str
}.

Definition lookup (p : str) (w : fs) : option kind :=
  snd <$> List.find (fun e => bool_decide (e.1 = p)) (nodes w).

Definition remove (p : str) (w : fs) : fs :=
  Fs (List.filter (fun e => negb (bool_decide (e.1 = p))) (nodes w))
     (readonly w) (clock w).

Definition add (p : str) (k : kind) (w : fs) : fs :=
  Fs (nodes (remove p w) ++ [(p, k)]) (readonly w) (clock w).

Definition dirname (p : str) : str :=
  match Path.rfind Path.sep p with
  | Some O => [Path.sep]
  | Some i => take i p
  | None => []
  end.

Definition basename (p : str) : str :=
  match Path.rfind Path.sep p with
  | Some i => drop (S i) p
  | None => p
  end.

Definition quoted (p : str) : str := lit "'" ++ p ++ lit "'".
Definition ENOENT (p : str) : Exception :=
  {| exc_str := lit "[Errno 2] No such file or directory: " ++ quoted p |}.
Definition EACCES (p : str) : Exception :=
  {| exc_str := lit "[Errno 13] Permission denied: " ++ quoted p |}.
Definition EEXIST (p : str) : Exception :=
  {| exc_str := lit "[Errno 17] File exists: " ++ quoted p |}.
Definition ENOTDIR (p : str) : Exception :=
  {| exc_str := lit "[Errno 20] Not a directory: " ++ quoted p |}.
Definition already_exists (p : str) : Exception :=
  {| exc_str := lit "Destination path " ++ quoted p ++ lit " already exists" |}.
Definition not_modelled (p : str) : Exception :=
  {| exc_str := lit "cannot move " ++ quoted p |}.

(** The name of [p] in directory [d], when [p] is an entry of [d]. *)
Definition child_of (d p : str) : option str :=
  let prefix := if bool_decide (last d = Some Path.sep) then d
                else d ++ [Path.sep] in
  let name := drop (length prefix) p in
  if bool_decide (take (length prefix) p = prefix)
     && bool_decide (name ≠ [])
     && negb (existsb (N.eqb Path.sep) name)
  then Some name else None.

Definition listdir (d : str) (w : fs) : Exception + list str :=
  match lookup d w with
  | Some Dir => inr (omap (child_of d) (map fst (nodes w)))
  | Some File => inl (ENOTDIR d)
  | None => inl (ENOENT d)
  end.

Definition isfile (p : str) (w : fs) : bool :=
  bool_decide (lookup p w = Some File).

Definition exists_ (p : str) (w : fs) : bool :=
  bool_decide (is_Some (lookup p w)).

(** The prefixes of [p] that end just before a separator, shortest first,
    then [p] itself: the directories [os.makedirs(p)] goes through. *)
Definition ancestors (p : str) : list str :=
  omap (fun i => if (0 <? i)%nat && bool_decide (p !! i = Some Path.sep)
                 then Some (take i p) else None)
       (seq 0 (length p))
  ++ [p].

Fixpoint mkdirs (todo : list str) (target : str) (w : fs)
  : option Exception * fs :=
  match todo with
  | [] => (None, w)
  | a :: rest =>
      match lookup a w with
      | Some Dir => mkdirs rest target w
      | Some File =>
          (Some (if bool_decide (a = target) then EEXIST a else ENOTDIR target), w)
      | None =>
          if bool_decide (dirname a ∈ readonly w) then (Some (EACCES a), w)
          else mkdirs rest target (add a Dir w)
      end
  end.

Definition makedirs_exist_ok (p : str) (w : fs) : option Exception * fs :=
  mkdirs (ancestors p) p w.

(** [shutil.move] of a regular file: into [dst] when that is a directory,
    else onto [dst]; by rename, or, when the source directory refuses the
    removal, by a copy that stays behind while the removal raises. *)
Definition move (src dst : str) (w : fs) : option Exception * fs :=
  match lookup src w with
  | None => (Some (ENOENT src), w)
  | Some Dir => (Some (not_modelled src), w)
  | Some File =>
      let real_dst :=
        if bool_decide (lookup dst w = Some Dir)
        then Path.join dst (basename src) else dst in
      if bool_decide (lookup dst w = Some Dir) && exists_ real_dst w
      then (Some (already_exists real_dst), w)
      else if negb (bool_decide (lookup (dirname real_dst) w = Some Dir))
      then (Some (ENOENT real_dst), w)
      else if bool_decide (dirname real_dst ∈ readonly w)
      then (Some (EACCES real_dst), w)
      else if bool_decide (dirname src ∈ readonly w)
      then (Some (EACCES src), add real_dst File w)
      else (None, add real_dst File (remove src w))
  end.

(** Every name [n] with [Path.join d n = p], for [p] an existing path. *)
Definition names (d : str) (w : fs) : list str :=
  flat_map (fun p => [p; drop (length d) p; drop (S (length d)) p])
           (map fst (nodes w)).

Lemma names_complete d w n :
  exists_ (Path.join d n) w = true -> n ∈ names d w.
Proof.
  unfold exists_, lookup, names. intros Hex.
  apply bool_decide_eq_true in Hex as [k Hk].
  apply fmap_Some in Hk as ([p k'] & Hfind & _).
  apply List.find_some in Hfind as [Hin Heq].
  apply bool_decide_eq_true in Heq. simpl in Heq. subst p.
  apply list_elem_of_In, in_flat_map.
  exists (Path.join d n). split.
  { apply in_map_iff. by exists (Path.join d n, k'). }
  apply list_elem_of_In. unfold Path.join.
  case_bool_decide; [rewrite elem_of_cons; by left|].
  destruct (last d) as [z|]; [destruct (N.eqb z Path.sep)|].
  - rewrite drop_app_length, !elem_of_cons. auto.
  - assert (drop (S (length d)) (d ++ Path.sep :: n) = n) as ->.
    { rewrite (cons_middle Path.sep), app_assoc.
      apply drop_app_length'. rewrite length_app. simpl. lia. }
    rewrite !elem_of_cons. auto.
  - rewrite drop_app_length, !elem_of_cons. auto.
Qed.

#[global] Instance os : OS fs := {|
  os_listdir := listdir;
  os_path_isfile := isfile;
  os_path_exists := exists_;
  os_makedirs_exist_ok := makedirs_exist_ok;
  shutil_move := move;
  time_strftime := fun _ w => clock w;
  names_under := names;
  names_under_complete := names_complete
|}.

(** A world from a list of paths. *)
Definition world_of (entries : list (string * kind)) (ro : list string) : fs :=
  Fs (map (fun e => (lit e.1, e.2)) entries) (map lit ro)
     (lit "2024-01-01 12:00:00").

End MemFS.

(** ** Example worlds *)

Module Worlds.
Import MemFS.

Definition src : str := lit "/src".
Definition dst : str := lit "/dst".

(** The scenario of the specification: three files, an empty destination. *)
Definition three_files : fs :=
  world_of [("/src", Dir); ("/src/photo.png", File); ("/src/doc.pdf", File);
            ("/src/unknown.xyz", File); ("/dst", Dir)]%string [].

(** The destination holds a regular file named like a category. *)
Definition images_is_a_file : fs :=
  world_of [("/src", Dir); ("/src/photo.png", File); ("/dst", Dir);
            ("/dst/Images", File)]%string [].

(** Nothing can be removed from the source directory. *)
Definition readonly_source : fs :=
  world_of [("/src", Dir); ("/src/photo.png", File); ("/src/doc.pdf", File);
            ("/dst", Dir)]%string ["/src"]%string.

(** There is no source directory. *)
Definition no_source : fs :=
  world_of [("/dst", Dir)]%string [].

(** The destination already holds the name and its first numbered form. *)
Definition photo_taken : fs :=
  world_of [("/dst", Dir); ("/dst/Images", Dir);
            ("/dst/Images/photo.png", File);
            ("/dst/Images/photo (1).png", File)]%string [].

(** The destination already holds a name that starts with a dot. *)
Definition hidden_taken : fs :=
  world_of [("/dst", Dir); ("/dst/Others", Dir);
            ("/dst/Others/.gitignore", File)]%string [].

(** The destination already holds the name, once. *)
Definition photo_once : fs :=
  world_of [("/dst", Dir); ("/dst/Images", Dir);
            ("/dst/Images/photo.png", File)]%string [].

(** Five files to move. *)
Definition five_files : fs :=
  world_of [("/src", Dir); ("/src/a.jpg", File); ("/src/b.mp3", File);
            ("/src/c.zip", File); ("/src/d.mkv", File); ("/src/e", File);
            ("/dst", Dir)]%string [].

(** The source holds a directory and no regular file. *)
Definition only_subdir : fs :=
  world_of [("/src", Dir); ("/src/sub", Dir); ("/dst", Dir)]%string [].

Definition only_subdir_prepared : state fs :=
  (prepare dst (started only_subdir [])).2.

(** A file whose name is taken in the folder of its category. *)
Definition collision : fs :=
  world_of [("/src", Dir); ("/src/photo.png", File); ("/dst", Dir);
            ("/dst/Images", Dir); ("/dst/Images/photo.png", File)]%string [].

(** The names that exist in some directory. *)
Definition taken_names : list str :=
  map lit ["a.txt"; "a (1).txt"; "b.txt"]%string.

Definition is_taken (name : str) : bool := bool_decide (name ∈ taken_names).

(** The state in which the loop starts on [readonly_source], the error that
    the move of its first file raises, and the state that this leaves. *)
Definition readonly_prepared : state fs :=
  (prepare dst (started readonly_source [lit "photo.png"; lit "doc.pdf"])).2.

Definition denied : Exception := EACCES (lit "/src/photo.png").

Definition readonly_denied : state fs :=
  (try_body src dst 1 (lit "photo.png") readonly_prepared).2.

(** The listing of [three_files], and the state in which its loop starts. *)
Definition three_names : list str :=
  [lit "photo.png"; lit "doc.pdf"; lit "unknown.xyz"].

Definition three_prepared : state fs :=
  (prepare dst (started three_files (regular_files src three_files three_names))).2.

End Worlds.

(** ** Extensions *)

(** An extension as the table writes them: a dot followed by characters
    other than a dot. *)
Definition is_ext (e : str) : bool :=
  match e with
  | c :: t =>
      N.eqb c Path.extsep && forallb (fun x => negb (N.eqb x Path.extsep)) t
  | [] => false
  end.

(** A table all of whose extensions are of that form. *)
Definition ext_table (items : list (str * list str)) : Prop :=
  Forall (fun item => Forall (fun e => is_ext e = true) item.2) items.

(** The first category of [items] that lists [ext]. *)
Definition owner (items : list (str * list str)) (ext : str) : option str :=
  fst <$> List.find (fun item => bool_decide (ext ∈ item.2)) items.

(** The text that [get_unique_name] inserts between stem and extension:
    [f" ({counter})"]. *)
Definition counter_tag (counter : nat) : str :=
  lit " (" ++ of_nat counter ++ lit ")".

(** ** The trace of the loop *)

(** The events of the files attempted from index [idx] on: for each one its
    [LogLine], whose text is given, then its [Progress]. *)
Fixpoint file_pairs (idx : nat) (texts : list str) : list event :=
  match texts with
  | [] => []
  | text :: rest => LogLine text :: Progress idx :: file_pairs (S idx) rest
  end.

(** The folder that the worker chooses for a file. *)
Definition dest_folder_of (dest filename : str) : str :=
  Path.join dest (py_or (categorize_file filename) OTHER_FOLDER_NAME).

(** The mutating calls that the attempt of one file can make: none (the
    file is skipped), a failed [os.makedirs] of its folder, or that
    [os.makedirs] followed by one [shutil.move] of the file into the
    folder. *)
Inductive file_calls (source dest filename : str) : list syscall -> Prop :=
  | calls_skipped :
      file_calls source dest filename []
  | calls_no_folder (e : Exception) :
      file_calls source dest filename
        [Makedirs (dest_folder_of dest filename) (Some e)]
  | calls_move (name : str) (raised : option Exception) :
      file_calls source dest filename
        [Makedirs (dest_folder_of dest filename) None;
         Move (Path.join source filename)
           (Path.join (dest_folder_of dest filename) name) raised].

(** The calls of a preparation that succeeds. *)
Definition prepare_calls (dest : str) : list syscall :=
  map (fun cat => Makedirs (Path.join dest cat) None)
      (map fst FILE_TYPES ++ [OTHER_FOLDER_NAME]).

(** The names of the six folders of the destination. *)
Definition folder_names : list str :=
  map fst FILE_TYPES ++ [OTHER_FOLDER_NAME].

(** What a mutating call of a run may be: the creation of one of the six
    folders under [dest], or the move of a listed file from [source] into
    the folder of its category. *)
Definition call_allowed (source dest : str) (files : list str) (c : syscall)
  : Prop :=
  match c with
  | Makedirs path _ => exists cat, cat ∈ folder_names /\ path = Path.join dest cat
  | Move src dst _ =>
      exists filename name,
        filename ∈ files
        /\ src = Path.join source filename
        /\ dst = Path.join (dest_folder_of dest filename) name
  end.

(** A call of [os.makedirs] on the folder of [dest] named by one of [cats]. *)
Definition is_makedirs_of (dest : str) (cats : list str) (c : syscall) : Prop :=
  exists cat raised, cat ∈ cats /\ c = Makedirs (Path.join dest cat) raised.

(** The sources of the moves of a log of calls, in order. *)
Definition move_sources (log : list syscall) : list str :=
  omap (fun c => match c with Move src _ _ => Some src | _ => None end) log.

(** ** The window

    [FileOrganizerGUI], as far as its controller goes: the two path
    variables, the text of the log area, the two buttons, the two progress
    numbers and the worker it holds.  The canvas of the progress bar and its
    colours are left out.  Message boxes are recorded in the order they are
    shown.  The log area is read as [log_area.get("1.0", "end-1c")]: in a Tk
    text widget, [insert("end", s)] appends [s] to that text and
    [delete("end-2c")] removes its last character. *)

Module Gui.

(** [state="normal"] and [state="disabled"]. *)
Inductive widget_state := normal | disabled.

Inductive dialog :=
  | showerror (title message : str)
  | showinfo (title message : str).

(** An [OrganizerWorker] as [__init__] makes it: the two paths and the
    stop event. *)
Record OrganizerWorker := Worker {
  source : str;
  dest : str;
  _stop_event : bool
}.

(** [OrganizerWorker.stop] *)
Definition stop (self : OrganizerWorker) : OrganizerWorker :=
  Worker (source self) (dest self) true.

(** [OrganizerWorker.stopped] *)
Definition stopped (self : OrganizerWorker) : bool := _stop_event self.

Record gui := Gui {
  source_var : str;
  dest_var : str;
  log_text : str;
  log_state : widget_state;
  organize_btn : widget_state;
  cancel_btn : widget_state;
  progress_value : nat;
  progress_max : nat;
  dialogs : list dialog;
  worker : option OrganizerWorker
}.

Definition set_log (text : str) (st : widget_state) (g : gui) : gui :=
  Gui (source_var g) (dest_var g) text st (organize_btn g) (cancel_btn g)
      (progress_value g) (progress_max g) (dialogs g) (worker g).

Definition set_buttons (organize cancel : widget_state) (g : gui) : gui :=
  Gui (source_var g) (dest_var g) (log_text g) (log_state g) organize cancel
      (progress_value g) (progress_max g) (dialogs g) (worker g).

Definition set_progress (value max : nat) (g : gui) : gui :=
  Gui (source_var g) (dest_var g) (log_text g) (log_state g) (organize_btn g)
      (cancel_btn g) value max (dialogs g) (worker g).

Definition set_source (s : str) (g : gui) : gui :=
  Gui s (dest_var g) (log_text g) (log_state g) (organize_btn g)
      (cancel_btn g) (progress_value g) (progress_max g) (dialogs g)
      (worker g).

Definition set_dest (s : str) (g : gui) : gui :=
  Gui (source_var g) s (log_text g) (log_state g) (organize_btn g)
      (cancel_btn g) (progress_value g) (progress_max g) (dialogs g)
      (worker g).

Definition set_worker (wk : option OrganizerWorker) (g : gui) : gui :=
  Gui (source_var g) (dest_var g) (log_text g) (log_state g) (organize_btn g)
      (cancel_btn g) (progress_value g) (progress_max g) (dialogs g) wk.

Definition show (d : dialog) (g : gui) : gui :=
  Gui (source_var g) (dest_var g) (log_text g) (log_state g) (organize_btn g)
      (cancel_btn g) (progress_value g) (progress_max g) (dialogs g ++ [d])
      (worker g).

Definition newline : str := [10%N].

(** [_log]: the area is made editable, the message and a newline are
    appended, the area is locked again. *)
Definition _log (msg : str) (g : gui) : gui :=
  set_log (log_text g ++ msg ++ newline) disabled g.

(** [_animate_terminal_cursor]: a trailing underscore is removed, or one is
    appended. *)
Definition _animate_terminal_cursor (g : gui) : gui :=
  let content := log_text g in
  if endswith content (lit "_")
  then set_log (take (length content - 1) content) disabled g
  else set_log (content ++ lit "_") disabled g.

(** [_browse_source] and [_browse_dest], given what the folder dialog
    answers (the empty string when it is dismissed). *)
Definition _browse_source (folder : str) (g : gui) : gui :=
  match folder with
  | [] => g
  | _ => _log (lit "[SYS] Source folder: " ++ folder) (set_source folder g)
  end.

Definition _browse_dest (folder : str) (g : gui) : gui :=
  match folder with
  | [] => g
  | _ => _log (lit "[SYS] Destination folder: " ++ folder) (set_dest folder g)
  end.

Definition is_empty (s : str) : bool :=
  match s with [] => true | _ => false end.

(** [_on_organize] in world [w].  The listing is not guarded: when it
    raises, the callback ends there, with the buttons already switched. *)
Definition _on_organize `{OS W} (w : W) (g : gui) : result unit * gui :=
  let src := source_var g in
  let dst := dest_var g in
  if is_empty src || is_empty dst then
    (Returned tt,
     show (showerror (lit "Error")
             (lit "Please select source and destination folders")) g)
  else
    let g := set_buttons disabled normal g in
    let g := set_progress 0 (progress_max g) g in
    match os_listdir src w with
    | inl e => (Raised e, g)
    | inr names =>
        let g := set_progress (progress_value g)
                   (length (regular_files src w names)) g in
        let g := set_worker (Some (Worker src dst false)) g in
        (Returned tt, _log (lit "[SYS] Organization started...") g)
    end.

(** [_on_cancel], given what [self.worker.is_alive()] answers. *)
Definition _on_cancel (is_alive : bool) (g : gui) : gui :=
  match worker g with
  | Some wk =>
      if is_alive
      then _log (lit "[SYS] Cancel requested...") (set_worker (Some (stop wk)) g)
      else _log (lit "[SYS] No active operation to cancel.") g
  | None => _log (lit "[SYS] No active operation to cancel.") g
  end.

(** The body of the loop of [_process_queue] for one item: there is a branch
    for "progress", "log" and "done", and none for "start" and "error". *)
Definition process_item (g : gui) (item : event) : gui :=
  match item with
  | Progress payload => set_progress payload (progress_max g) g
  | LogLine payload => _log payload g
  | Done payload =>
      let g := set_progress (progress_max g) (progress_max g) g in
      let g := _log (lit "[SYS] Completed! " ++ of_nat payload
                       ++ lit " files organized.") g in
      let g := show (showinfo (lit "Success")
                       (of_nat payload ++ lit " files organized!")) g in
      set_buttons normal disabled g
  | _ => g
  end.

(** [_process_queue] when [batch] is what the queue holds. *)
Definition _process_queue (batch : list event) (g : gui) : gui :=
  fold_left process_item batch g.

(** The window after [_build_ui]: the two opening lines are logged, the
    cancel button is disabled, the progress is 0 of 100. *)
Definition built : gui :=
  _log (lit "Terminal ready...")
    (_log (lit "=== FILE ORGANIZER PRO v2.0 ===")
       (Gui [] [] [] disabled normal disabled 0 100 [] None)).

(** The window after [__init__], which starts the cursor. *)
Definition init : gui := _animate_terminal_cursor built.

(** What can happen to the window: the user picks a folder or types in an
    entry, clicks a button (Tk runs the command of a button only when the
    button is enabled), or a timer fires.  An exception that leaves a
    callback is reported by Tk and the window goes on from the state the
    callback left. *)
Inductive action (W : Type) :=
  | BrowseSource (folder : str)
  | BrowseDest (folder : str)
  | TypeSource (text : str)
  | TypeDest (text : str)
  | ClickOrganize (w : W)
  | ClickCancel (is_alive : bool)
  | Drain (batch : list event)
  | Tick.
Arguments BrowseSource {W}.
Arguments BrowseDest {W}.
Arguments TypeSource {W}.
Arguments TypeDest {W}.
Arguments ClickOrganize {W}.
Arguments ClickCancel {W}.
Arguments Drain {W}.
Arguments Tick {W}.

Definition act `{OS W} (g : gui) (a : action W) : gui :=
  match a with
  | BrowseSource folder => _browse_source folder g
  | BrowseDest folder => _browse_dest folder g
  | TypeSource text => set_source text g
  | TypeDest text => set_dest text g
  | ClickOrganize w =>
      match organize_btn g with
      | normal => (_on_organize w g).2
      | disabled => g
      end
  | ClickCancel is_alive =>
      match cancel_btn g with
      | normal => _on_cancel is_alive g
      | disabled => g
      end
  | Drain batch => _process_queue batch g
  | Tick => _animate_terminal_cursor g
  end.

(** The operations that write to the log area. *)
Inductive log_op :=
  | Log (msg : str)
  | Blink.

Definition log_step (g : gui) (op : log_op) : gui :=
  match op with
  | Log msg => _log msg g
  | Blink => _animate_terminal_cursor g
  end.

(** The messages of a sequence of operations, in order. *)
Definition logged (ops : list log_op) : list str :=
  omap (fun op => match op with Log msg => Some msg | Blink => None end) ops.

Definition mark (b : bool) : str := if b then lit "_" else [].

(** The lines of the messages, each one after a cursor mark or not. *)
Fixpoint render (marks : list bool) (msgs : list str) : str :=
  match marks, msgs with
  | b :: marks, msg :: msgs => mark b ++ msg ++ newline ++ render marks msgs
  | _, _ => []
  end.

(** Exactly one of the two buttons is enabled. *)
Definition exclusive (g : gui) : Prop :=
  organize_btn g = normal /\ cancel_btn g = disabled
  \/ organize_btn g = disabled /\ cancel_btn g = normal.

(** An action that brings no "done" item to the window. *)
Definition quiet {W} (a : action W) : Prop :=
  match a with
  | Drain batch => Forall (fun item => forall n, item <> Done n) batch
  | _ => True
  end.

(** The window holds a worker whose stop event is set. *)
Definition cancel_requested (g : gui) : Prop :=
  exists wk, worker g = Some wk /\ stopped wk = true.

(** The [Progress] items of a batch stay within [limit]. *)
Definition progress_within (limit : nat) (batch : list event) : Prop :=
  Forall (fun item => forall idx, item = Progress idx -> idx <= limit) batch.

End Gui.

(** ** Example windows *)

Module Windows.
Import Gui.

(** A window in which the two folders were typed. *)
Definition typed : gui := set_dest Worlds.dst (set_source Worlds.src init).

(** The same window after a click on the start button, in a world without
    the source folder and in worlds with it. *)
Definition typed_no_source : gui := (_on_organize Worlds.no_source typed).2.

Definition typed_three_files : gui :=
  (_on_organize Worlds.three_files typed).2.

Definition typed_images_is_a_file : gui :=
  (_on_organize Worlds.images_is_a_file typed).2.

End Windows.

(** ** What happened to a file *)

(** The [LogLine] of a file attempted and the mutating calls made for it go
    together: the file was skipped; its folder could not be made; its move
    raised; or it was moved, and the line names the folder and the name
    that the move was given. *)
Inductive file_outcome (source dest filename : str)
  : str -> list syscall -> Prop :=
  | outcome_skipped :
      file_outcome source dest filename (skip_line filename) []
  | outcome_no_folder (e : Exception) :
      file_outcome source dest filename (error_line filename e)
        [Makedirs (dest_folder_of dest filename) (Some e)]
  | outcome_move_raised (name : str) (e : Exception) :
      file_outcome source dest filename (error_line filename e)
        [Makedirs (dest_folder_of dest filename) None;
         Move (Path.join source filename)
           (Path.join (dest_folder_of dest filename) name) (Some e)]
  | outcome_moved (timestamp name : str) :
      file_outcome source dest filename
        (moved_line timestamp filename
           (py_or (categorize_file filename) OTHER_FOLDER_NAME) name)
        [Makedirs (dest_folder_of dest filename) None;
         Move (Path.join source filename)
           (Path.join (dest_folder_of dest filename) name) None].

(** The outcomes of the files attempted, in order: [texts] are their lines,
    [groups] the calls made for each. *)
Inductive outcomes (source dest : str)
  : list str -> list str -> list (list syscall) -> Prop :=
  | outcomes_nil : outcomes source dest [] [] []
  | outcomes_cons filename text group files texts groups :
      file_outcome source dest filename text group ->
      outcomes source dest files texts groups ->
      outcomes source dest (filename :: files) (text :: texts)
        (group :: groups).

(** * Properties *)

(** ** Strings *)

Section StrFacts.

Local Open Scope N_scope.

Ltac cp_cases :=
  repeat match goal with
    | |- context [N.leb ?a ?b] => destruct (N.leb_spec a b)
    | |- context [N.eqb ?a ?b] => destruct (N.eqb_spec a b)
    end;
  simpl; try (reflexivity || lia || (repeat f_equal; lia)).

Lemma endswith_suffix (s suffix : str) :
  endswith s suffix = true <-> suffix `suffix_of` s.
Proof.
  unfold endswith.
  rewrite andb_true_iff, Nat.leb_le, bool_decide_eq_true. split.
  - intros [_ <-]. apply suffix_drop.
  - intros [k ->]. rewrite length_app. split; [lia|].
    apply drop_app_length'. lia.
Qed.

Lemma endswith_tuple_Exists (s : str) (suffixes : list str) :
  endswith_tuple s suffixes = true
  <-> Exists (fun suffix => suffix `suffix_of` s) suffixes.
Proof.
  unfold endswith_tuple.
  rewrite existsb_exists, Exists_exists.
  split; intros (x & Hin & Hx); exists x;
    (split; [by apply list_elem_of_In | by apply endswith_suffix]).
Qed.

Lemma lower_app (s t : str) : Str.lower (s ++ t) = Str.lower s ++ Str.lower t.
Proof. apply flat_map_app. Qed.

Lemma lower_cp_idem (c : N) : Str.lower (lower_cp c) = lower_cp c.
Proof. unfold Str.lower, lower_cp. cp_cases; unfold lower_cp; cp_cases. Qed.

Lemma lower_idem (s : str) : Str.lower (Str.lower s) = Str.lower s.
Proof.
  induction s as [|c s IH]; [done|].
  change (Str.lower (c :: s)) with (lower_cp c ++ Str.lower s).
  by rewrite lower_app, lower_cp_idem, IH.
Qed.

Lemma lower_upper_cp (c : N) : c < 128 -> Str.lower (upper_cp c) = lower_cp c.
Proof. intros Hc. unfold Str.lower, upper_cp, lower_cp. cp_cases; unfold lower_cp; cp_cases. Qed.

Lemma lower_upper_ascii (s : str) :
  is_ascii s -> Str.lower (Str.upper s) = Str.lower s.
Proof.
  induction 1 as [|c s Hc _ IH]; [done|].
  change (Str.upper (c :: s)) with (upper_cp c ++ Str.upper s).
  change (Str.lower (c :: s)) with (lower_cp c ++ Str.lower s).
  by rewrite lower_app, lower_upper_cp, IH.
Qed.

End StrFacts.

(** ** The classifier *)

Section Classifier.

Implicit Types (items : list (str * list str)) (filename cat : str).

Lemma FILE_TYPES_lowercase : lowercase_table FILE_TYPES.
Proof. repeat constructor. Qed.

Lemma endswith_tuple_matches (exts : list str) filename :
  Forall (fun ext => Str.lower ext = ext) exts ->
  endswith_tuple (Str.lower filename) exts = true
  <-> category_matches exts filename.
Proof.
  intros Hlow. unfold category_matches, ci_suffix.
  rewrite endswith_tuple_Exists, !Exists_exists.
  rewrite Forall_forall in Hlow.
  split; intros (ext & Hin & Hsuf); exists ext; (split; [done|]).
  - by rewrite (Hlow ext Hin).
  - by rewrite (Hlow ext Hin) in Hsuf.
Qed.

Lemma categorize_items_None items filename :
  lowercase_table items ->
  categorize_items items (Str.lower filename) = None
  <-> no_match items filename.
Proof.
  unfold no_match.
  induction 1 as [|[cat exts] items Hlow _ IH]; simpl.
  - split; [constructor | done].
  - rewrite Forall_cons. simpl.
    rewrite <- (endswith_tuple_matches exts filename Hlow).
    destruct (endswith_tuple _ exts).
    + split; [done | by intros [[] _]].
    + rewrite IH. split; [by split | by intros [_ ?]].
Qed.

Lemma categorize_items_Some items filename cat :
  lowercase_table items ->
  categorize_items items (Str.lower filename) = Some cat
  <-> first_match items cat filename.
Proof.
  unfold first_match.
  induction 1 as [|[cat' exts] items Hlow _ IH]; simpl.
  - split; [done | by intros ([|??] & ? & ? & ? & _)].
  - pose proof (endswith_tuple_matches exts filename Hlow) as Hm.
    destruct (endswith_tuple _ exts) eqn:Hends.
    + split.
      * intros [= ->]. exists [], exts, items.
        split; [done|]. split; [by apply Hm | constructor].
      * intros ([|[c e] before] & exts' & after & Heq & Hmatch & Hnone).
        -- by injection Heq as -> _ _.
        -- injection Heq as -> -> _.
           apply Forall_cons in Hnone as [Hno _]. simpl in Hno.
           destruct Hno. by apply Hm.
    + rewrite IH. split.
      * intros (before & exts' & after & -> & Hmatch & Hnone).
        exists ((cat', exts) :: before), exts', after.
        split; [done|]. split; [done|].
        constructor; [|done]. simpl. intros Hc. apply Hm in Hc. done.
      * intros ([|[c e] before] & exts' & after & Heq & Hmatch & Hnone).
        -- injection Heq as -> -> _. apply Hm in Hmatch. done.
        -- injection Heq as -> -> ->.
           apply Forall_cons in Hnone as [_ Hnone].
           by exists before, exts', after.
Qed.

Lemma categorize_items_key items (lower : str) cat :
  categorize_items items lower = Some cat -> cat ∈ map fst items.
Proof.
  induction items as [|[c exts] items IH]; simpl; [done|].
  destruct (endswith_tuple lower exts).
  - intros [= ->]. apply elem_of_cons. by left.
  - intros Hc. apply elem_of_cons. right. by apply IH.
Qed.

End Classifier.

(** C5. [categorize_file] answers the first category of [FILE_TYPES], in
    declaration order, one of whose extensions is a case-insensitive suffix
    of the filename, and [None] exactly when no category has such an
    extension.  This holds for every filename, the empty one included. *)
Theorem categorize_file_first_match (filename : str) :
  (forall cat, categorize_file filename = Some cat
               <-> first_match FILE_TYPES cat filename)
  /\ (categorize_file filename = None <-> no_match FILE_TYPES filename).
Proof.
  split.
  - intros cat. apply categorize_items_Some, FILE_TYPES_lowercase.
  - apply categorize_items_None, FILE_TYPES_lowercase.
Qed.

(** C7, as amended.  [categorize_file] is a function of the filename that
    gives the same answer on the filename and on its lower-case form; it
    gives the same answer on the upper-case form of every filename made of
    ASCII characters; and it agrees on "A.JPG" and "a.jpg". *)
Theorem categorize_file_case_insensitive (filename : str) :
  categorize_file (Str.lower filename) = categorize_file filename
  /\ (is_ascii filename ->
      categorize_file (Str.upper filename) = categorize_file filename)
  /\ categorize_file (lit "A.JPG") = categorize_file (lit "a.jpg").
Proof.
  unfold categorize_file. split; [|split].
  - by rewrite lower_idem.
  - intros Hascii. by rewrite lower_upper_ascii.
  - reflexivity.
Qed.

Lemma categorize_file_case_insensitive_witness :
  is_ascii (lit "Holiday.Png")
  /\ categorize_file (Str.upper (lit "Holiday.Png"))
     = categorize_file (lit "Holiday.Png").
Proof.
  assert (Hascii : is_ascii (lit "Holiday.Png"))
    by (repeat constructor).
  split; [exact Hascii|].
  exact (proj1 (proj2 (categorize_file_case_insensitive (lit "Holiday.Png")))
           Hascii).
Defined.

(** C7, the claim as stated fails on upper case: the upper-case form of
    "a.xl" followed by U+017F (LATIN SMALL LETTER LONG S) is "A.XLS", a
    document, while the filename itself matches no extension. *)
Lemma categorize_file_upper_long_s :
  categorize_file (Str.upper (lit "a.xl" ++ [383%N])) = Some (lit "Documents")
  /\ categorize_file (lit "a.xl" ++ [383%N]) = None.
Proof. split; reflexivity. Qed.

(** C10. [categorize_file] never answers [OTHER_FOLDER_NAME]: its answer is
    [None] or one of the five keys of [FILE_TYPES]; and the worker's
    [categorize_file(filename) or OTHER_FOLDER_NAME] is [OTHER_FOLDER_NAME]
    exactly when the answer is [None]. *)
Theorem categorize_file_never_other (filename : str) :
  categorize_file filename <> Some OTHER_FOLDER_NAME
  /\ (categorize_file filename = None
      \/ exists cat, categorize_file filename = Some cat
           /\ cat ∈ map lit ["Images"; "Documents"; "Videos"; "Music";
                             "Archives"]%string)
  /\ (py_or (categorize_file filename) OTHER_FOLDER_NAME = OTHER_FOLDER_NAME
      <-> categorize_file filename = None).
Proof.
  unfold categorize_file.
  destruct (categorize_items FILE_TYPES (Str.lower filename)) as [cat|] eqn:Hcat.
  - apply categorize_items_key in Hcat.
    change (map fst FILE_TYPES)
      with (map lit ["Images"; "Documents"; "Videos"; "Music"; "Archives"]%string)
      in Hcat.
    split; [|split].
    + intros [= ->]. simpl in Hcat. rewrite !elem_of_cons in Hcat.
      destruct Hcat as [?|[?|[?|[?|[?|Hcat]]]]];
        [discriminate.. | by apply elem_of_nil in Hcat].
    + right. by exists cat.
    + simpl in Hcat. rewrite !elem_of_cons in Hcat.
      split; [|done].
      destruct Hcat as [->|[->|[->|[->|[->|Hcat]]]]];
        [discriminate.. | by apply elem_of_nil in Hcat].
  - split; [done|]. split; [by left | done].
Qed.

(** ** The unique-name resolver *)

Section Naming.

Lemma lit_inj (s t : string) : lit s = lit t -> s = t.
Proof.
  unfold lit. intros Heq.
  rewrite <- (String.string_of_list_ascii_of_string s),
          <- (String.string_of_list_ascii_of_string t).
  f_equal.
  revert Heq. generalize (String.list_ascii_of_string t).
  induction (String.list_ascii_of_string s) as [|a l IH]; intros [|b k];
    simpl; try done.
  intros [= Hab Hlk]. f_equal; [|by apply IH].
  by rewrite <- (Ascii.ascii_N_embedding a), <- (Ascii.ascii_N_embedding b), Hab.
Qed.

Lemma of_nat_inj (n m : nat) : of_nat n = of_nat m -> n = m.
Proof.
  unfold of_nat. intros Heq%lit_inj.
  apply DecimalNat.Unsigned.to_uint_inj.
  assert (Some (Nat.to_uint n) = Some (Nat.to_uint m)) as [= ?]; [|done].
  by rewrite <- !NilEmpty.usu, Heq.
Qed.

Lemma numbered_inj (base ext : str) (n m : nat) :
  numbered base ext n = numbered base ext m -> n = m.
Proof.
  unfold numbered. intros Heq.
  do 2 apply app_inv_head in Heq.
  apply app_inv_tail in Heq. by apply of_nat_inj.
Qed.

Lemma numbered_length (base ext : str) (n : nat) :
  length (base ++ ext) < length (numbered base ext n).
Proof. unfold numbered. rewrite !length_app. simpl. lia. Qed.

Lemma splitext_app (p base ext : str) :
  Path.splitext p = (base, ext) -> base ++ ext = p.
Proof.
  unfold Path.splitext.
  destruct (Path.rfind Path.extsep p) as [dotIndex|];
    [destruct (_ && _)|]; intros [= <- <-];
    auto using take_drop, app_nil_r.
Qed.

Lemma candidate_S (filename base ext : str) (n : nat) :
  Path.splitext filename = (base, ext) ->
  candidate filename (S n) = numbered base ext (S n).
Proof. unfold candidate, candidate_with. by intros ->. Qed.

Lemma candidate_inj (filename : str) : Inj (=) (=) (candidate filename).
Proof.
  destruct (Path.splitext filename) as [base ext] eqn:Hsplit.
  pose proof (splitext_app _ _ _ Hsplit) as Happ.
  intros [|n] [|m] Heq; [done|..].
  - rewrite (candidate_S _ _ _ _ Hsplit) in Heq. simpl in Heq.
    pose proof (numbered_length base ext (S m)) as Hlen.
    rewrite <- Heq, Happ in Hlen. lia.
  - rewrite (candidate_S _ _ _ _ Hsplit) in Heq. simpl in Heq.
    pose proof (numbered_length base ext (S n)) as Hlen.
    rewrite Heq, Happ in Hlen. lia.
  - rewrite !(candidate_S _ _ _ _ Hsplit) in Heq.
    by apply numbered_inj in Heq.
Qed.

Variable exists_ : str -> bool.
Variables filename base ext : str.
Hypothesis Hsplit : Path.splitext filename = (base, ext).

(** After [k] turns of the loop, its variables hold [candidate filename k]
    and [S k]. *)
Lemma probe_Some (fuel k : nat) (name : str) :
  probe exists_ base ext fuel (candidate filename k) (S k) = Some name ->
  exists N, k <= N /\ name = candidate filename N
    /\ exists_ name = false
    /\ forall j, k <= j < N -> exists_ (candidate filename j) = true.
Proof.
  revert k. induction fuel as [|fuel IH]; intros k; simpl; [done|].
  destruct (exists_ (candidate filename k)) eqn:Hex.
  - rewrite <- (candidate_S _ _ _ k Hsplit). intros HS.
    apply IH in HS as (N & Hle & -> & Hfree & Htaken).
    exists N. repeat split; [lia | done |].
    intros j Hj. destruct (decide (j = k)) as [->|]; [done|].
    apply Htaken. lia.
  - intros [= <-]. exists k. repeat split; [lia | done |]. lia.
Qed.

Lemma probe_None (fuel k : nat) :
  probe exists_ base ext fuel (candidate filename k) (S k) = None ->
  forall j, k <= j < k + fuel -> exists_ (candidate filename j) = true.
Proof.
  revert k. induction fuel as [|fuel IH]; intros k; simpl; [lia|].
  destruct (exists_ (candidate filename k)) eqn:Hex; [|done].
  rewrite <- (candidate_S _ _ _ k Hsplit). intros HN j Hj.
  destruct (decide (j = k)) as [->|]; [done|].
  apply (IH (S k) HN). lia.
Qed.

(** Finitely many names exist, so the candidates, which are all
    different, cannot all exist. *)
Lemma probe_enough_fuel (entries : list str) (fuel : nat) :
  (forall name, exists_ name = true -> name ∈ entries) ->
  length entries < fuel ->
  is_Some (probe exists_ base ext fuel (candidate filename 0) 1).
Proof.
  intros Hfin Hfuel.
  destruct (probe _ _ _ _ _ _) as [name|] eqn:Hprobe; [by eexists|].
  pose proof (probe_None _ _ Hprobe) as Htaken.
  assert (candidate filename <$> seq 0 fuel ⊆+ entries) as Hsub.
  { apply NoDup_submseteq.
    - apply (NoDup_fmap_2 _ (Inj0 := candidate_inj filename)), NoDup_seq.
    - intros name (j & -> & Hj%elem_of_seq)%list_elem_of_fmap.
      apply Hfin, Htaken. lia. }
  apply submseteq_length in Hsub.
  rewrite length_fmap, length_seq in Hsub. lia.
Qed.

End Naming.

Lemma get_unique_name_in_probe (exists_ : str -> bool) (fuel : nat)
    (filename : str) :
  get_unique_name_in exists_ fuel filename
  = probe exists_ (Path.splitext filename).1 (Path.splitext filename).2
      fuel (candidate filename 0) 1.
Proof.
  unfold get_unique_name_in. by destruct (Path.splitext filename).
Qed.

(** The bound that [get_unique_name] gives to the loop is never reached. *)
Lemma get_unique_name_fuel `{OS W} (dest_dir filename : str) (w : W) :
  get_unique_name_in (fun c => os_path_exists (Path.join dest_dir c) w)
    (S (length (names_under dest_dir w))) filename
  = Some (get_unique_name dest_dir filename w).
Proof.
  unfold get_unique_name.
  destruct (get_unique_name_in _ _ _) as [name|] eqn:Hname; [done|].
  rewrite get_unique_name_in_probe in Hname.
  destruct (Path.splitext filename) as [base ext] eqn:Hsplit.
  edestruct (probe_enough_fuel
               (fun c => os_path_exists (Path.join dest_dir c) w)
               filename base ext Hsplit (names_under dest_dir w)
               (S (length (names_under dest_dir w)))) as [name Hsome].
  - intros name. apply names_under_complete.
  - lia.
  - unfold fst, snd in Hname. congruence.
Qed.

(** C8. When the names that exist in the destination directory are finitely
    many (all of them are in the list [entries]), the loop of
    [get_unique_name] ends: it answers within [length entries + 1] tests of
    its condition. *)
Theorem get_unique_name_terminates (exists_ : str -> bool)
    (entries : list str) (filename : str) (fuel : nat) :
  (forall name, exists_ name = true -> name ∈ entries) ->
  length entries < fuel ->
  is_Some (get_unique_name_in exists_ fuel filename).
Proof.
  intros Hfin Hfuel. rewrite get_unique_name_in_probe.
  destruct (Path.splitext filename) as [base ext] eqn:Hsplit.
  by apply (probe_enough_fuel exists_ filename base ext Hsplit entries).
Qed.

Lemma get_unique_name_terminates_witness :
  is_Some (get_unique_name_in Worlds.is_taken 4 (lit "a.txt")).
Proof.
  apply (get_unique_name_terminates Worlds.is_taken Worlds.taken_names).
  - intros name Hname. by apply bool_decide_eq_true in Hname.
  - simpl. lia.
Defined.

(** C6, as amended.  [get_unique_name] answers the filename itself when that
    does not exist in the destination directory; otherwise it answers the
    first of "stem (1)ext", "stem (2)ext", ... that does not exist there,
    with stem and ext as [os.path.splitext] gives them (the extension starts
    at the last dot, and the leading dots of a name are not an extension);
    in both cases the name it answers does not exist in the directory. *)
Theorem get_unique_name_first_free `{OS W} (dest_dir filename : str) (w : W) :
  (os_path_exists (Path.join dest_dir filename) w = false ->
   get_unique_name dest_dir filename w = filename)
  /\ (os_path_exists (Path.join dest_dir filename) w = true ->
      exists N, 1 <= N
        /\ get_unique_name dest_dir filename w = candidate filename N
        /\ forall k, 1 <= k < N ->
             os_path_exists (Path.join dest_dir (candidate filename k)) w = true)
  /\ os_path_exists
       (Path.join dest_dir (get_unique_name dest_dir filename w)) w = false.
Proof.
  pose proof (get_unique_name_fuel dest_dir filename w) as Hname.
  rewrite get_unique_name_in_probe in Hname.
  destruct (Path.splitext filename) as [base ext] eqn:Hsplit.
  apply (probe_Some _ filename base ext Hsplit) in Hname
    as (N & _ & HN & Hfree & Htaken).
  split; [|split]; [| |done].
  - intros Hno. destruct N as [|N]; [done|].
    pose proof (Htaken 0 ltac:(lia)) as H0.
    change (candidate filename 0) with filename in H0. congruence.
  - intros Hyes. destruct N as [|N].
    + rewrite HN in Hfree.
      change (candidate filename 0) with filename in Hfree. congruence.
    + exists (S N). split; [lia|]. split; [done|].
      intros k Hk. apply Htaken. lia.
Qed.

Lemma get_unique_name_first_free_witness :
  os_path_exists (Path.join (lit "/dst/Images") (lit "photo.png"))
    Worlds.photo_taken = true
  /\ exists N, 1 <= N
       /\ get_unique_name (lit "/dst/Images") (lit "photo.png") Worlds.photo_taken
          = candidate (lit "photo.png") N
       /\ forall k, 1 <= k < N ->
            os_path_exists
              (Path.join (lit "/dst/Images") (candidate (lit "photo.png") k))
              Worlds.photo_taken = true.
Proof.
  split; [reflexivity|].
  apply (proj1 (proj2 (get_unique_name_first_free
                         (lit "/dst/Images") (lit "photo.png")
                         Worlds.photo_taken))).
  reflexivity.
Defined.

(** C6, the claim as stated fails for a name that starts with a dot.  With
    ".gitignore" present in the directory, splitting at the last dot gives
    the stem "" and the extension ".gitignore", so the first candidate of
    the claim is " (1).gitignore", which does not exist; [get_unique_name]
    answers ".gitignore (1)". *)
Lemma get_unique_name_leading_dot :
  os_path_exists (Path.join (lit "/dst/Others") (lit ".gitignore"))
    Worlds.hidden_taken = true
  /\ candidate_with Path.split_at_last_dot (lit ".gitignore") 1
     = lit " (1).gitignore"
  /\ os_path_exists
       (Path.join (lit "/dst/Others")
          (candidate_with Path.split_at_last_dot (lit ".gitignore") 1))
       Worlds.hidden_taken = false
  /\ get_unique_name (lit "/dst/Others") (lit ".gitignore") Worlds.hidden_taken
     = lit ".gitignore (1)"
  /\ get_unique_name (lit "/dst/Others") (lit ".gitignore") Worlds.hidden_taken
     <> candidate_with Path.split_at_last_dot (lit ".gitignore") 1.
Proof. repeat split; try reflexivity. discriminate. Qed.

(** ** The worker *)

Section WorkerFacts.

Context `{OS W}.
Variables source dest : str.
Implicit Types (s : state W) (stopped : nat -> bool) (files : list str).

Ltac unfold_M :=
  unfold mbind, M_bind, mret, M_ret, try_except, put, ask, makedirs, move,
    call, set_moved_count, get_moved_count in *;
  simpl in *.

Lemma successful_moves_app (l k : list syscall) :
  successful_moves (l ++ k) = successful_moves l + successful_moves k.
Proof. unfold successful_moves. by rewrite List.filter_app, length_app. Qed.

Lemma progress_indices_app (q r : list event) :
  progress_indices (q ++ r) = progress_indices q ++ progress_indices r.
Proof. apply omap_app. Qed.

Lemma skip_line_file_event (filename : str) :
  skip_line filename <> cancelled_line.
Proof. intros Heq%(f_equal (take 7)). by vm_compute in Heq. Qed.

Lemma error_line_file_event (filename : str) (e : Exception) :
  error_line filename e <> cancelled_line.
Proof. intros Heq%(f_equal (take 7)). by vm_compute in Heq. Qed.

Lemma moved_line_file_event (timestamp filename category unique_name : str) :
  moved_line timestamp filename category unique_name <> cancelled_line.
Proof. intros Heq%(f_equal (take 7)). by vm_compute in Heq. Qed.

(** What one run of the [try] body leaves behind, by the way it ends. *)
Lemma try_body_cases (idx : nat) (filename : str) s :
  match try_body source dest idx filename s with
  | (Returned Continue, s') =>
      s' = State (world s)
             (queue_out s ++ [LogLine (skip_line filename); Progress idx])
             (moved_count s) (syscalls s)
  | (Returned Through, s') =>
      exists text extra,
        text <> cancelled_line
        /\ queue_out s' = queue_out s ++ [LogLine text]
        /\ moved_count s' = moved_count s + 1
        /\ syscalls s' = syscalls s ++ extra
        /\ successful_moves extra = 1
  | (Raised e, s') =>
      exists extra,
        queue_out s' = queue_out s
        /\ moved_count s' = moved_count s
        /\ syscalls s' = syscalls s ++ extra
        /\ successful_moves extra = 0
  end.
Proof.
  unfold try_body. unfold_M.
  destruct (os_path_isfile _ _); simpl.
  - destruct (os_makedirs_exist_ok _ _) as [[e|] w1]; simpl.
    + by exists [Makedirs
                   (Path.join dest
                      (py_or (categorize_file filename) OTHER_FOLDER_NAME))
                   (Some e)].
    + destruct (shutil_move _ _ _) as [[e|] w2]; simpl.
      * eexists [_; Move _ _ (Some e)].
        by rewrite <- app_assoc.
      * eexists _, [_; Move _ _ None]. split; [apply moved_line_file_event|].
        by rewrite <- app_assoc.
  - by rewrite <- app_assoc.
Qed.

(** An iteration never raises: it puts one [LogLine] and one [Progress],
    and counts the move it made, if any. *)
Lemma iteration_spec (idx : nat) (filename : str) s :
  exists s' text extra,
    iteration source dest idx filename s = (Returned tt, s')
    /\ queue_out s' = queue_out s ++ [LogLine text; Progress idx]
    /\ text <> cancelled_line
    /\ syscalls s' = syscalls s ++ extra
    /\ moved_count s' = moved_count s + successful_moves extra
    /\ successful_moves extra <= 1.
Proof.
  pose proof (try_body_cases idx filename s) as Hbody.
  unfold iteration. unfold_M.
  destruct (try_body source dest idx filename s) as [[[|]|e] s1]; simpl.
  - subst s1. eexists _, _, []. split; [done|]. simpl.
    rewrite app_nil_r. repeat split; auto using skip_line_file_event.
  - destruct Hbody as (text & extra & Hne & Hq & Hm & Hs & Hone).
    eexists _, text, extra. split; [done|]. simpl.
    rewrite Hq, <- app_assoc, Hone. repeat split; auto.
  - destruct Hbody as (extra & Hq & Hm & Hs & Hzero).
    eexists _, _, extra. split; [done|]. simpl.
    rewrite Hq, <- app_assoc, Hzero. simpl.
    repeat split; auto using error_line_file_event. lia.
Qed.

Lemma for_files_spec stopped files : forall idx s,
  exists s',
    for_files source dest stopped idx files s = (Returned tt, s')
    /\ loop_post stopped idx (length files) s s'.
Proof.
  induction files as [|filename rest IH]; intros idx s; simpl.
  - exists s. split; [done|]. exists [], [], [], 0. simpl.
    rewrite !app_nil_r. repeat split; auto; lia.
  - destruct (stopped idx) eqn:Hstop.
    + eexists. split; [done|].
      exists [], [LogLine cancelled_line], [], 0. simpl.
      rewrite app_nil_r, Nat.add_0_r.
      repeat split; auto; try lia. right. repeat split; auto. lia.
    + destruct (iteration_spec idx filename s)
        as (s1 & text & extra1 & Hit & Hq1 & Hne & Hs1 & Hm1 & Hle1).
      destruct (IH (S idx) s1)
        as (s' & Hloop & body & tail & extra & k & Hq & Hbody & Hidx
            & Hnot & Htail & Hs & Hm & Hle).
      exists s'. split.
      { unfold mbind, M_bind. by rewrite Hit. }
      exists ([LogLine text; Progress idx] ++ body), tail,
             (extra1 ++ extra), (S k).
      rewrite Hq, Hq1, Hs, Hs1, Hm, Hm1, successful_moves_app,
        progress_indices_app, Hidx, <- !app_assoc.
      repeat split; auto; try lia.
      * repeat constructor; auto.
      * intros i Hi. destruct (decide (i = idx)) as [->|]; [done|].
        apply Hnot. lia.
      * destruct Htail as [[-> ->]|(-> & Hlt & Hst)]; [by left|].
        right. repeat split; auto; [lia|].
        by replace (idx + S k) with (S idx + k) by lia.
Qed.

(** The directories are made without a word on the queue. *)
Lemma for_cats_spec (cats : list str) : forall s,
  exists r s' extra,
    for_cats dest cats s = (r, s')
    /\ queue_out s' = queue_out s
    /\ moved_count s' = moved_count s
    /\ syscalls s' = syscalls s ++ extra
    /\ successful_moves extra = 0.
Proof.
  induction cats as [|cat rest IH]; intros s; simpl.
  - exists (Returned tt), s, []. by rewrite app_nil_r.
  - unfold_M.
    destruct (os_makedirs_exist_ok _ _) as [[e|] w1]; simpl.
    + by eexists _, _, [_].
    + match goal with |- context [for_cats dest rest ?s1] =>
        destruct (IH s1) as (r & s' & extra & -> & Hq & Hm & Hs & Hz) end.
      exists r, s', (Makedirs (Path.join dest cat) None :: extra).
      simpl in *. split; [by destruct r|].
      rewrite Hs, <- app_assoc. by repeat split.
Qed.

Lemma prepare_spec s :
  exists r s' extra,
    prepare dest s = (r, s')
    /\ queue_out s' = queue_out s
    /\ moved_count s' = moved_count s
    /\ syscalls s' = syscalls s ++ extra
    /\ successful_moves extra = 0.
Proof.
  unfold prepare.
  destruct (for_cats_spec (map fst FILE_TYPES) s)
    as (r & s1 & extra & Hcats & Hq & Hm & Hs & Hz).
  unfold mbind, M_bind. rewrite Hcats.
  destruct r as [[]|e]; [|by exists (Raised e), s1, extra].
  unfold_M.
  destruct (os_makedirs_exist_ok _ _) as [[e|] w1]; simpl;
    eexists _, _, (extra ++ [_]); (split; [done|]); simpl;
    rewrite Hs, <- app_assoc, successful_moves_app, Hz; by repeat split.
Qed.

End WorkerFacts.

Section Runs.

Context `{OS W}.
Variables source dest : str.
Implicit Types (s : state W) (stopped : nat -> bool) (w : W).

Lemma run_listing_failed stopped w (e : Exception) :
  os_listdir source w = inl e ->
  run source dest stopped (initial w)
  = (Returned tt, State w [Error (listing_error e)] 0 []).
Proof.
  intros Hlist. unfold run, try_except, list_files, mbind, M_bind. simpl.
  by rewrite Hlist.
Qed.

Lemma run_listed stopped w (names : list str) :
  os_listdir source w = inr names ->
  run source dest stopped (initial w)
  = (prepare dest;;
     for_files source dest stopped 1 (regular_files source w names);;
     n ← get_moved_count;
     put (Done n)) (started w (regular_files source w names)).
Proof.
  intros Hlist. unfold run, try_except, list_files, mbind, M_bind. simpl.
  by rewrite Hlist.
Qed.

(** The three ways a run can go: the listing fails; [prepare] raises; or
    the loop is entered and the run ends with [Done]. *)
Lemma run_outcome stopped w :
  (exists e,
      os_listdir source w = inl e
      /\ run source dest stopped (initial w)
         = (Returned tt, State w [Error (listing_error e)] 0 []))
  \/ (exists names e s',
        os_listdir source w = inr names
        /\ run source dest stopped (initial w) = (Raised e, s')
        /\ queue_out s' = [Start (length (regular_files source w names))])
  \/ (exists names s1 s2,
        os_listdir source w = inr names
        /\ prepare dest (started w (regular_files source w names))
           = (Returned tt, s1)
        /\ queue_out s1 = [Start (length (regular_files source w names))]
        /\ moved_count s1 = 0
        /\ successful_moves (syscalls s1) = 0
        /\ loop_post stopped 1 (length (regular_files source w names)) s1 s2
        /\ run source dest stopped (initial w)
           = (Returned tt,
              State (world s2) (queue_out s2 ++ [Done (moved_count s2)])
                (moved_count s2) (syscalls s2))).
Proof.
  destruct (os_listdir source w) as [e|names] eqn:Hlist.
  { left. exists e. split; [done|]. by apply run_listing_failed. }
  right.
  destruct (prepare_spec dest (started w (regular_files source w names)))
    as (r & s1 & extra & Hprep & Hq & Hm & Hs & Hz).
  destruct r as [[]|e].
  - right.
    destruct (for_files_spec source dest stopped
                (regular_files source w names) 1 s1) as (s2 & Hloop & Hpost).
    exists names, s1, s2.
    split; [done|]. split; [done|]. split; [by rewrite Hq|].
    split; [by rewrite Hm|]. split; [by rewrite Hs|]. split; [done|].
    rewrite (run_listed _ _ _ Hlist).
    unfold mbind, M_bind. by rewrite Hprep, Hloop.
  - left. exists names, e, s1. split; [done|]. split; [|by rewrite Hq].
    rewrite (run_listed _ _ _ Hlist).
    unfold mbind, M_bind. by rewrite Hprep.
Qed.

(** A loop that sees the flag set after [pre] goes as the loop over [pre]
    alone, then reports the cancellation. *)
Lemma for_files_cancel stopped (pre rest : list str) : forall idx s,
  rest <> [] ->
  (forall i, idx <= i < idx + length pre -> stopped i = false) ->
  stopped (idx + length pre) = true ->
  for_files source dest stopped idx (pre ++ rest) s
  = (for_files source dest (fun _ => false) idx pre;;
     put (LogLine cancelled_line)) s.
Proof.
  induction pre as [|filename pre IH]; intros idx s Hrest Hnot Hstop; simpl.
  - rewrite Nat.add_0_r in Hstop.
    destruct rest as [|f rest]; [done|]. simpl. by rewrite Hstop.
  - rewrite (Hnot idx) by (simpl; lia).
    unfold mbind, M_bind in *.
    destruct (iteration source dest idx filename s) as [[[]|e] s1]; [|done].
    apply IH; [done | |].
    + intros i Hi. apply Hnot. simpl. lia.
    + by replace (S idx + length pre) with (idx + length (filename :: pre))
        by (simpl; lia).
Qed.

Lemma file_event_not_cancelled (body : list event) :
  Forall file_event body -> LogLine cancelled_line ∉ body.
Proof.
  intros Hbody Hin.
  rewrite Forall_forall in Hbody. by apply Hbody in Hin.
Qed.

End Runs.

(** C1, at an input where the code departs from the claim.  The destination
    holds a regular file named "Images": the listing succeeds and [Start] is
    put on the queue, then [os.makedirs] raises in the preparation of the
    category directories, outside of any [try]; the exception leaves [run]
    and no [Done] is ever put. *)
Theorem run_prepare_raises_no_done :
  run Worlds.src Worlds.dst (fun _ => false) (initial Worlds.images_is_a_file)
  = (Raised (MemFS.EEXIST (lit "/dst/Images")),
     State Worlds.images_is_a_file [Start 1] 0
       [Makedirs (lit "/dst/Images")
          (Some (MemFS.EEXIST (lit "/dst/Images")))]).
Proof. reflexivity. Qed.

(** C2. A failure raised in the processing of one file (the body of the
    [try] statement: the file test, the classification, the creation of the
    destination directory, the choice of the name, the move) is caught in
    that iteration: nothing was put on the queue or counted before it, one
    [LogLine] that names the file and the error is put, followed by the
    [Progress] of the file, [moved_count] stays as it was, the loop goes on
    with the next file, and the loop as a whole returns without raising. *)
Theorem per_file_failure_is_local `{OS W} (source dest : str)
    (stopped : nat -> bool) (idx : nat) (filename : str) (rest : list str)
    (s s1 : state W) (e : Exception) :
  stopped idx = false ->
  try_body source dest idx filename s = (Raised e, s1) ->
  queue_out s1 = queue_out s
  /\ moved_count s1 = moved_count s
  /\ for_files source dest stopped idx (filename :: rest) s
     = for_files source dest stopped (S idx) rest
         (State (world s1)
            (queue_out s ++ [LogLine (error_line filename e); Progress idx])
            (moved_count s) (syscalls s1))
  /\ (for_files source dest stopped idx (filename :: rest) s).1 = Returned tt.
Proof.
  intros Hstop Hraise.
  pose proof (try_body_cases source dest idx filename s) as Hcases.
  rewrite Hraise in Hcases. destruct Hcases as (extra & Hq & Hm & _).
  split; [done|]. split; [done|]. split.
  - simpl. rewrite Hstop.
    unfold iteration, try_except, mbind, M_bind, put, mret, M_ret.
    rewrite Hraise. simpl. by rewrite Hq, Hm, <- app_assoc.
  - by destruct (for_files_spec source dest stopped (filename :: rest) idx s)
      as (s' & -> & _).
Qed.

Lemma per_file_failure_is_local_witness :
  for_files Worlds.src Worlds.dst (fun _ => false) 1
    [lit "photo.png"; lit "doc.pdf"] Worlds.readonly_prepared
  = for_files Worlds.src Worlds.dst (fun _ => false) 2 [lit "doc.pdf"]
      (State (world Worlds.readonly_denied)
         (queue_out Worlds.readonly_prepared
            ++ [LogLine (error_line (lit "photo.png") Worlds.denied);
                Progress 1])
         (moved_count Worlds.readonly_prepared)
         (syscalls Worlds.readonly_denied)).
Proof.
  apply (per_file_failure_is_local Worlds.src Worlds.dst (fun _ => false) 1
           (lit "photo.png") [lit "doc.pdf"] Worlds.readonly_prepared
           Worlds.readonly_denied Worlds.denied);
    reflexivity.
Defined.

(** C3. In a run that enters the loop and sees the flag set at the head of
    iteration [k + 1], not before: the first [k] files are processed as
    without cancellation, which leaves state [s2], with [k] [Progress]
    events and no cancellation line; the run then puts one cancellation
    [LogLine] and [Done], and returns.  Nothing else happens after [s2]: the
    world and the log of calls are those of [s2], so no further file is
    moved, and no further [Progress] is put.  [Done] carries the number of
    moves that succeeded among the first [k] files. *)
Theorem run_cancelled `{OS W} (source dest : str) (stopped : nat -> bool)
    (w : W) (names : list str) (s1 : state W) (k : nat) :
  os_listdir source w = inr names ->
  prepare dest (started w (regular_files source w names)) = (Returned tt, s1) ->
  k < length (regular_files source w names) ->
  (forall i, 1 <= i <= k -> stopped i = false) ->
  stopped (S k) = true ->
  exists s2,
    for_files source dest (fun _ => false) 1
      (take k (regular_files source w names)) s1 = (Returned tt, s2)
    /\ (LogLine cancelled_line ∉ queue_out s2)
    /\ progress_indices (queue_out s2) = seq 1 k
    /\ moved_count s2 = successful_moves (syscalls s2)
    /\ run source dest stopped (initial w)
       = (Returned tt,
          State (world s2)
            (queue_out s2
               ++ [LogLine cancelled_line;
                   Done (successful_moves (syscalls s2))])
            (moved_count s2) (syscalls s2)).
Proof.
  intros Hlist Hprep Hk Hnot Hstop.
  set (files := regular_files source w names) in *.
  destruct (prepare_spec dest (started w files))
    as (r & s1' & extra1 & Hprep' & Hq1 & Hm1 & Hs1 & Hz1).
  rewrite Hprep in Hprep'. injection Hprep' as <- <-.
  destruct (for_files_spec source dest (fun _ => false) (take k files) 1 s1)
    as (s2 & Hloop & body & tail & extra & n & Hq & Hbody & Hidx & _
        & Htail & Hs & Hm & _).
  destruct Htail as [[-> ->]|(_ & _ & ?)]; [|done].
  rewrite length_take, Nat.min_l in Hidx by lia.
  rewrite app_nil_r, Hq1 in Hq. simpl in Hq.
  assert (moved_count s2 = successful_moves (syscalls s2)) as Hcount.
  { rewrite Hm, Hm1, Hs, Hs1, !successful_moves_app, Hz1. done. }
  exists s2. split; [done|]. split; [|split; [|split; [done|]]].
  - rewrite Hq. intros [[=]|Hin]%elem_of_cons.
    by apply file_event_not_cancelled in Hin.
  - by rewrite Hq.
  - rewrite (run_listed _ _ _ _ _ Hlist). fold files.
    unfold mbind at 1, M_bind at 1. rewrite Hprep.
    rewrite <- (take_drop k files) at 1.
    unfold mbind at 1, M_bind at 1.
    rewrite for_files_cancel.
    + unfold mbind, M_bind. rewrite Hloop.
      unfold put, get_moved_count. simpl.
      by rewrite <- app_assoc, Hcount.
    + intros Hnil%(f_equal length). rewrite length_drop in Hnil.
      simpl in Hnil. lia.
    + rewrite length_take, Nat.min_l by lia. intros i Hi. apply Hnot. lia.
    + rewrite length_take, Nat.min_l by lia. done.
Qed.

Lemma run_cancelled_witness :
  exists s2,
    for_files Worlds.src Worlds.dst (fun _ => false) 1
      (take 1 (regular_files Worlds.src Worlds.three_files Worlds.three_names))
      Worlds.three_prepared
    = (Returned tt, s2)
    /\ (LogLine cancelled_line ∉ queue_out s2)
    /\ progress_indices (queue_out s2) = seq 1 1
    /\ moved_count s2 = successful_moves (syscalls s2)
    /\ run Worlds.src Worlds.dst (fun i => 2 <=? i) (initial Worlds.three_files)
       = (Returned tt,
          State (world s2)
            (queue_out s2
               ++ [LogLine cancelled_line;
                   Done (successful_moves (syscalls s2))])
            (moved_count s2) (syscalls s2)).
Proof.
  apply (run_cancelled Worlds.src Worlds.dst (fun i => 2 <=? i)
           Worlds.three_files Worlds.three_names Worlds.three_prepared 1).
  - reflexivity.
  - reflexivity.
  - simpl. lia.
  - intros i Hi. assert (i = 1) as -> by lia. reflexivity.
  - reflexivity.
Defined.

(** C4. In a run that puts [Start total], the indices of the [Progress]
    events are 1, 2, ..., [n] in this order, one per file considered
    (moved, skipped or failed), where [n] is fixed by the run: the flag was
    not seen set at the head of the iterations 1 to [n]; when the run
    returns, either [n = total], every listed file was considered, or the
    flag was seen set at the head of iteration [n + 1], so [n] files were
    considered before the cancellation; and when an exception leaves the
    run, which happens in the preparation, before any file is considered,
    [n = 0].  Every index is at most [total], and so is their number [n];
    and the count that [Done] carries, when [Done] is put, is at most
    [n]. *)
Theorem progress_counts `{OS W} (source dest : str) (stopped : nat -> bool)
    (w : W) (total : nat) :
  Start total ∈ events source dest stopped w ->
  exists n,
    progress_indices (events source dest stopped w) = seq 1 n
    /\ n <= total
    /\ Forall (fun idx => 1 <= idx <= total)
         (progress_indices (events source dest stopped w))
    /\ (forall moved, Done moved ∈ events source dest stopped w -> moved <= n)
    /\ (forall i, 1 <= i <= n -> stopped i = false)
    /\ (forall s', run source dest stopped (initial w) = (Returned tt, s') ->
          n = total \/ n < total /\ stopped (S n) = true)
    /\ (forall e s', run source dest stopped (initial w) = (Raised e, s') ->
          n = 0).
Proof.
  unfold events. intros Hstart.
  assert (forall n,
            progress_indices (queue_out (run source dest stopped (initial w)).2)
            = seq 1 n ->
            n <= total ->
            Forall (fun idx => 1 <= idx <= total)
              (progress_indices
                 (queue_out (run source dest stopped (initial w)).2)))
    as Hbound.
  { intros n -> Hn. apply Forall_forall. intros idx Hidx%elem_of_seq. lia. }
  destruct (run_outcome source dest stopped w)
    as [(e & _ & Hrun)|[(names & e & s' & _ & Hrun & Hq)
                       |(names & s1 & s2 & _ & _ & Hq1 & Hm1 & _ & Hpost & Hrun)]];
    rewrite Hrun in *; simpl in *.
  - apply list_elem_of_singleton in Hstart. done.
  - rewrite Hq in *. apply list_elem_of_singleton in Hstart as [= ->].
    exists 0. split; [done|]. split; [lia|]. split; [by apply (Hbound 0); [|lia]|].
    split; [intros moved Hin%list_elem_of_singleton; done|].
    split; [intros i Hi; lia|]. split; [intros s0 [=] | done].
  - destruct Hpost as (body & tail & extra & n & Hq & Hbody & Hidx & Hnot
                       & Htail & _ & Hm & Hle).
    rewrite Hq, Hq1 in *. clear Hq Hq1.
    assert (progress_indices
              (([Start (length (regular_files source w names))] ++ body ++ tail)
                 ++ [Done (moved_count s2)]) = seq 1 n) as Hprog.
    { rewrite !progress_indices_app, Hidx.
      destruct Htail as [[-> _]|(-> & _)]; simpl; by rewrite !app_nil_r. }
    assert (total = length (regular_files source w names)) as ->.
    { rewrite !elem_of_app, list_elem_of_singleton in Hstart.
      destruct Hstart as [[[= ->]|[Hin|Hin]]|Hin%list_elem_of_singleton];
        [done | | | done].
      - rewrite Forall_forall in Hbody. by apply Hbody in Hin.
      - destruct Htail as [[-> _]|(-> & _)].
        + by apply elem_of_nil in Hin.
        + by apply list_elem_of_singleton in Hin. }
    assert (n <= length (regular_files source w names)) as Hn
      by (destruct Htail as [[_ ->]|(_ & ? & _)]; lia).
    exists n. split; [done|]. split; [done|]. split; [by apply (Hbound n)|].
    split.
    { intros moved. rewrite !elem_of_app, !list_elem_of_singleton.
      intros [[[=]|[Hin|Hin]]|[= ->]].
      + rewrite Forall_forall in Hbody. by apply Hbody in Hin.
      + destruct Htail as [[-> _]|(-> & _)].
        * by apply elem_of_nil in Hin.
        * by apply list_elem_of_singleton in Hin.
      + lia. }
    split; [intros i Hi; apply Hnot; lia|].
    split; [|intros e s0 [=]].
    intros s0 _. destruct Htail as [[_ ->]|(_ & Hlt & Hst)]; [by left|].
    right. split; [done|]. by rewrite <- Hst.
Qed.

Lemma progress_counts_witness :
  Start 3 ∈ events Worlds.src Worlds.dst (fun i => 3 <=? i) Worlds.three_files
  /\ exists n,
       progress_indices
         (events Worlds.src Worlds.dst (fun i => 3 <=? i) Worlds.three_files)
       = seq 1 n
       /\ n <= 3
       /\ Forall (fun idx => 1 <= idx <= 3)
            (progress_indices
               (events Worlds.src Worlds.dst (fun i => 3 <=? i)
                  Worlds.three_files))
       /\ (forall moved,
             Done moved
               ∈ events Worlds.src Worlds.dst (fun i => 3 <=? i)
                   Worlds.three_files ->
             moved <= n)
       /\ (forall i, 1 <= i <= n -> (3 <=? i) = false)
       /\ (forall s',
             run Worlds.src Worlds.dst (fun i => 3 <=? i)
               (initial Worlds.three_files) = (Returned tt, s') ->
             n = 3 \/ n < 3 /\ (3 <=? S n) = true)
       /\ (forall e s',
             run Worlds.src Worlds.dst (fun i => 3 <=? i)
               (initial Worlds.three_files) = (Raised e, s') ->
             n = 0).
Proof.
  assert (Start 3
            ∈ events Worlds.src Worlds.dst (fun i => 3 <=? i)
                Worlds.three_files)
    as Hstart by (vm_compute; constructor).
  split; [exact Hstart|].
  exact (progress_counts Worlds.src Worlds.dst (fun i => 3 <=? i)
           Worlds.three_files 3 Hstart).
Defined.

(** C9. A run that puts an [Error] event changes nothing in the file system:
    the world it leaves is the one it started in and it made no call of
    [os.makedirs] or [shutil.move] at all; the [Error] is its only event, and
    it comes from the failure of the listing. *)
Theorem error_run_changes_nothing `{OS W} (source dest : str)
    (stopped : nat -> bool) (w : W) (msg : str) :
  Error msg ∈ events source dest stopped w ->
  run source dest stopped (initial w)
  = (Returned tt, State w [Error msg] 0 [])
  /\ exists e, os_listdir source w = inl e /\ msg = listing_error e.
Proof.
  unfold events. intros Herror.
  destruct (run_outcome source dest stopped w)
    as [(e & Hlist & Hrun)|[(names & e & s' & _ & Hrun & Hq)
                           |(names & s1 & s2 & _ & _ & Hq1 & _ & _ & Hpost & Hrun)]];
    rewrite Hrun in *; simpl in *.
  - apply list_elem_of_singleton in Herror as [= ->]. split; [done|].
    by exists e.
  - rewrite Hq in Herror. by apply list_elem_of_singleton in Herror.
  - destruct Hpost as (body & tail & extra & n & Hq & Hbody & _ & _
                       & Htail & _).
    rewrite Hq, Hq1, !elem_of_app, !list_elem_of_singleton in Herror.
    destruct Herror as [[[=]|[Hin|Hin]]|[=]].
    + rewrite Forall_forall in Hbody. by apply Hbody in Hin.
    + destruct Htail as [[-> _]|(-> & _)].
      * by apply elem_of_nil in Hin.
      * by apply list_elem_of_singleton in Hin.
Qed.

Lemma error_run_changes_nothing_witness :
  Error (listing_error (MemFS.ENOENT (lit "/src")))
    ∈ events Worlds.src Worlds.dst (fun _ => false) Worlds.no_source
  /\ run Worlds.src Worlds.dst (fun _ => false) (initial Worlds.no_source)
     = (Returned tt,
        State Worlds.no_source
          [Error (listing_error (MemFS.ENOENT (lit "/src")))] 0 []).
Proof.
  assert (Error (listing_error (MemFS.ENOENT (lit "/src")))
            ∈ events Worlds.src Worlds.dst (fun _ => false) Worlds.no_source)
    as Herror by (vm_compute; constructor).
  split; [exact Herror|].
  exact (proj1 (error_run_changes_nothing Worlds.src Worlds.dst
                  (fun _ => false) Worlds.no_source _ Herror)).
Defined.

(** ** The scenarios of the specification, run on the file system in memory *)

Example scenario_three_files :
  events Worlds.src Worlds.dst (fun _ => false) Worlds.three_files
  = [Start 3;
     LogLine (moved_line (MemFS.clock Worlds.three_files) (lit "photo.png")
                (lit "Images") (lit "photo.png"));
     Progress 1;
     LogLine (moved_line (MemFS.clock Worlds.three_files) (lit "doc.pdf")
                (lit "Documents") (lit "doc.pdf"));
     Progress 2;
     LogLine (moved_line (MemFS.clock Worlds.three_files) (lit "unknown.xyz")
                (lit "Others") (lit "unknown.xyz"));
     Progress 3;
     Done 3].
Proof. reflexivity. Qed.

Example scenario_name_taken :
  get_unique_name (lit "/dst/Images") (lit "photo.png") Worlds.photo_once
  = lit "photo (1).png"
  /\ get_unique_name (lit "/dst/Images") (lit "photo.png") Worlds.photo_taken
     = lit "photo (2).png".
Proof. split; reflexivity. Qed.

Example scenario_cancel_before_second_of_five :
  events Worlds.src Worlds.dst (fun idx => 2 <=? idx) Worlds.five_files
  = [Start 5;
     LogLine (moved_line (MemFS.clock Worlds.five_files) (lit "a.jpg")
                (lit "Images") (lit "a.jpg"));
     Progress 1;
     LogLine cancelled_line;
     Done 1].
Proof. reflexivity. Qed.

Example scenario_no_source :
  events Worlds.src Worlds.dst (fun _ => false) Worlds.no_source
  = [Error (lit "Failed to list source folder: [Errno 2] No such file or directory: '/src'")].
Proof. reflexivity. Qed.

Example scenario_readonly_source :
  events Worlds.src Worlds.dst (fun _ => false) Worlds.readonly_source
  = [Start 2;
     LogLine (lit "[SYS] ERROR moving photo.png: [Errno 13] Permission denied: '/src/photo.png'");
     Progress 1;
     LogLine (lit "[SYS] ERROR moving doc.pdf: [Errno 13] Permission denied: '/src/doc.pdf'");
     Progress 2;
     Done 0].
Proof. reflexivity. Qed.

(** * Further properties *)

(** ** The last dot of a name *)

Section LastDot.

Implicit Types (s t : str) (c : N).

Lemma rfind_None c s : Path.rfind c s = None <-> c ∉ s.
Proof.
  induction s as [|x s IH]; simpl.
  - split; [intros _; apply not_elem_of_nil | done].
  - rewrite not_elem_of_cons.
    destruct (Path.rfind c s) as [i|].
    + split; [done | intros [_ Hs]]. by apply IH in Hs.
    + destruct (N.eqb_spec x c) as [->|Hne]; split; try done.
      * by intros [? _].
      * intros _. split; [done | by apply IH].
Qed.

Lemma rfind_Some c s i :
  Path.rfind c s = Some i ->
  s = take i s ++ c :: drop (S i) s /\ c ∉ drop (S i) s.
Proof.
  revert i. induction s as [|x s IH]; intros i; simpl; [done|].
  destruct (Path.rfind c s) as [j|] eqn:Hj.
  - intros [= <-]. destruct (IH j eq_refl) as [Hs Hnot].
    simpl. split; [by rewrite <- Hs | done].
  - destruct (N.eqb_spec x c) as [->|]; [|done].
    intros [= <-]. simpl. rewrite drop_0. split; [done|].
    by apply rfind_None.
Qed.

Lemma rfind_lt c s i : Path.rfind c s = Some i -> i < length s.
Proof.
  revert i. induction s as [|x s IH]; intros i; simpl; [done|].
  destruct (Path.rfind c s) as [j|].
  - intros [= <-]. specialize (IH j eq_refl). lia.
  - destruct (N.eqb x c); [|done]. intros [= <-]. lia.
Qed.

Lemma rfind_app c s t :
  Path.rfind c (s ++ t)
  = match Path.rfind c t with
    | Some j => Some (length s + j)
    | None => Path.rfind c s
    end.
Proof.
  induction s as [|x s IH]; simpl.
  - by destruct (Path.rfind c t).
  - rewrite IH. destruct (Path.rfind c t); [done|].
    by destruct (Path.rfind c s).
Qed.

(** A list has one decomposition around the last occurrence of [c]. *)
Lemma last_occurrence c (k x t' t : list N) :
  k ++ c :: t' = x ++ c :: t -> c ∉ t' -> c ∉ t -> k = x /\ t' = t.
Proof.
  intros Heq Ht' Ht.
  apply app_eq_app in Heq as [l [[-> Heq]|[-> Heq]]].
  - destruct l as [|y l]; simpl in Heq.
    + injection Heq as ->. by rewrite app_nil_r.
    + injection Heq as -> ->. destruct Ht.
      rewrite elem_of_app, elem_of_cons. auto.
  - destruct l as [|y l]; simpl in Heq.
    + injection Heq as ->. by rewrite app_nil_r.
    + injection Heq as -> ->. destruct Ht'.
      rewrite elem_of_app, elem_of_cons. auto.
Qed.

Lemma is_ext_spec (e : str) :
  is_ext e = true <-> exists t, e = Path.extsep :: t /\ Path.extsep ∉ t.
Proof.
  destruct e as [|c t]; simpl.
  - split; [done | by intros (? & ? & _)].
  - rewrite andb_true_iff, N.eqb_eq, forallb_forall. split.
    + intros [-> Ht]. exists t. split; [done|].
      intros Hin%list_elem_of_In%Ht. by rewrite N.eqb_refl in Hin.
    + intros (t' & [= -> ->] & Hnot). split; [done|].
      intros x Hx%list_elem_of_In.
      destruct (N.eqb_spec x Path.extsep) as [->|]; done.
Qed.

(** An extension is a suffix of a name that ends with a dot and dot-free
    characters exactly when it is that ending. *)
Lemma ext_suffix (e x t : str) :
  is_ext e = true -> Path.extsep ∉ t ->
  e `suffix_of` (x ++ Path.extsep :: t) <-> e = Path.extsep :: t.
Proof.
  intros (t' & -> & Ht')%is_ext_spec Ht. split.
  - intros [k Hk]. symmetry in Hk.
    by destruct (last_occurrence _ _ _ _ _ Hk Ht' Ht) as [_ ->].
  - intros [= ->]. by exists x.
Qed.

Lemma lower_cp_dot c : Path.extsep ∈ lower_cp c <-> c = Path.extsep.
Proof.
  unfold lower_cp, Path.extsep.
  repeat match goal with
    | |- context [N.leb ?a ?b] => destruct (N.leb_spec a b)
    | |- context [N.eqb ?a ?b] => destruct (N.eqb_spec a b)
    end; cbn [andb];
    rewrite ?elem_of_cons, ?elem_of_nil;
    (split; [intros Hin; decompose [or] Hin; try done; lia
            | intros ->; try lia; auto]).
Qed.

Lemma lower_dot s : Path.extsep ∈ Str.lower s <-> Path.extsep ∈ s.
Proof.
  induction s as [|c s IH].
  - done.
  - change (Str.lower (c :: s)) with (lower_cp c ++ Str.lower s).
    rewrite elem_of_app, elem_of_cons, IH, lower_cp_dot.
    split; intros [?|?]; auto.
Qed.

End LastDot.

(** ** The classifier and the table *)

Section Table.

Implicit Types (items : list (str * list str)) (x t : str).

Lemma FILE_TYPES_ext_table : ext_table FILE_TYPES.
Proof. repeat constructor. Qed.

(** Every extension of the table belongs to the category that lists it: no
    category lists an extension of an earlier one. *)
Lemma FILE_TYPES_owner :
  Forall (fun item => Forall (fun e => owner FILE_TYPES e = Some item.1) item.2)
    FILE_TYPES.
Proof. repeat constructor. Qed.

Lemma endswith_tuple_ext (exts : list str) x t :
  Forall (fun e => is_ext e = true) exts -> Path.extsep ∉ t ->
  endswith_tuple (x ++ Path.extsep :: t) exts
  = bool_decide (Path.extsep :: t ∈ exts).
Proof.
  intros Hexts Ht. apply eq_true_iff_eq.
  rewrite endswith_tuple_Exists, bool_decide_eq_true, Exists_exists.
  rewrite Forall_forall in Hexts. split.
  - intros (e & Hin & Hsuf). apply ext_suffix in Hsuf; auto. by subst e.
  - intros Hin. exists (Path.extsep :: t). split; [done|].
    apply ext_suffix; auto.
Qed.

Lemma categorize_items_ext items x t :
  ext_table items -> Path.extsep ∉ t ->
  categorize_items items (x ++ Path.extsep :: t)
  = owner items (Path.extsep :: t).
Proof.
  intros Htable Ht. unfold owner.
  induction Htable as [|[cat exts] items Hexts _ IH]; simpl; [done|].
  rewrite (endswith_tuple_ext exts x t Hexts Ht).
  by destruct (bool_decide _).
Qed.

Lemma categorize_items_no_dot items (lower : str) :
  ext_table items -> Path.extsep ∉ lower ->
  categorize_items items lower = None.
Proof.
  intros Htable Hnot.
  induction Htable as [|[cat exts] items Hexts _ IH]; simpl; [done|].
  destruct (endswith_tuple lower exts) eqn:Hends; [|done].
  apply endswith_tuple_Exists, Exists_exists in Hends as (e & Hin & [k ->]).
  rewrite Forall_forall in Hexts.
  apply Hexts, is_ext_spec in Hin as (t & -> & _).
  destruct Hnot. rewrite elem_of_app, elem_of_cons. auto.
Qed.

Lemma categorize_file_owner (filename : str) :
  categorize_file filename
  = match Path.rfind Path.extsep filename with
    | Some dotIndex => owner FILE_TYPES (Str.lower (drop dotIndex filename))
    | None => None
    end.
Proof.
  unfold categorize_file.
  destruct (Path.rfind Path.extsep filename) as [i|] eqn:Hdot.
  - pose proof (rfind_lt _ _ _ Hdot) as Hlt.
    apply rfind_Some in Hdot as [Hname Hnot].
    assert (drop i filename = Path.extsep :: drop (S i) filename) as Hdrop.
    { rewrite Hname at 1. rewrite drop_app_length'; [done|].
      rewrite length_take. lia. }
    rewrite Hdrop, Hname at 1.
    rewrite lower_app.
    change (Str.lower (Path.extsep :: drop (S i) filename))
      with (Path.extsep :: Str.lower (drop (S i) filename)).
    apply categorize_items_ext; [apply FILE_TYPES_ext_table|].
    by rewrite lower_dot.
  - apply categorize_items_no_dot; [apply FILE_TYPES_ext_table|].
    rewrite lower_dot. by apply rfind_None.
Qed.

End Table.

(** X1. [categorize_file] looks at the part of the filename from its last dot
    on, and at nothing else: without a dot the answer is [None]; otherwise it
    is the category of [FILE_TYPES] that lists that part, taken in lower
    case, and [None] when no category lists it.  So "archive.tar.gz" is
    classified by ".gz", and a name such as "README" is never classified. *)
Theorem categorize_file_by_last_dot (filename : str) :
  categorize_file filename
  = match Path.rfind Path.extsep filename with
    | Some dotIndex => owner FILE_TYPES (Str.lower (drop dotIndex filename))
    | None => None
    end.
Proof. apply categorize_file_owner. Qed.

(** X2. No extension of [FILE_TYPES] is shadowed: a filename made of any stem
    followed by an extension that category [cat] lists, the extension in
    any mix of upper and lower case, is classified as [cat]. *)
Theorem categorize_file_listed_extension (cat : str) (exts : list str)
    (ext stem suffix : str) :
  (cat, exts) ∈ FILE_TYPES -> ext ∈ exts -> Str.lower suffix = ext ->
  categorize_file (stem ++ suffix) = Some cat.
Proof.
  intros Hcat Hext Hlower.
  pose proof FILE_TYPES_ext_table as Htable.
  pose proof FILE_TYPES_owner as Hown.
  unfold ext_table in Htable. rewrite Forall_forall in Htable, Hown.
  specialize (Htable _ Hcat). specialize (Hown _ Hcat).
  rewrite Forall_forall in Htable, Hown.
  specialize (Htable _ Hext). specialize (Hown _ Hext). simpl in *.
  apply is_ext_spec in Htable as (t & Ht & Hnot).
  unfold categorize_file. rewrite lower_app, Hlower, Ht.
  rewrite categorize_items_ext; [by rewrite <- Ht | apply FILE_TYPES_ext_table | done].
Qed.

Lemma categorize_file_listed_extension_witness :
  categorize_file (lit "Holiday 2024" ++ lit ".JpEg") = Some (lit "Images").
Proof.
  apply (categorize_file_listed_extension (lit "Images")
           (map lit [".jpg"; ".jpeg"; ".png"; ".gif"; ".bmp"; ".svg"; ".webp"]%string)
           (lit ".jpeg")).
  - apply elem_of_cons. by left.
  - apply elem_of_cons. right. apply elem_of_cons. by left.
  - reflexivity.
Defined.

(** ** The names that [get_unique_name] makes *)

Section Numbered.

Lemma numbered_tag (base ext : str) (n : nat) :
  numbered base ext n = base ++ counter_tag n ++ ext.
Proof. unfold numbered, counter_tag. by rewrite <- !app_assoc. Qed.

Lemma of_nat_digits (n : nat) :
  Forall (fun c => (48 <= c <= 57)%N) (of_nat n).
Proof.
  unfold of_nat. generalize (Nat.to_uint n).
  induction u; simpl; constructor; try done; vm_compute; by split.
Qed.

Lemma counter_tag_plain (n : nat) (c : N) :
  c = Path.extsep \/ c = Path.sep -> c ∉ counter_tag n.
Proof.
  intros Hc. unfold counter_tag.
  pose proof (of_nat_digits n) as Hd. rewrite Forall_forall in Hd.
  rewrite !not_elem_of_app. split; [|split].
  - change (lit " (") with [32%N; 40%N]. rewrite !not_elem_of_cons.
    destruct Hc as [-> | ->]; repeat split; (done || apply not_elem_of_nil).
  - intros Hin%Hd.
    destruct Hc as [-> | ->]; unfold Path.extsep, Path.sep in Hin; lia.
  - change (lit ")") with [41%N]. rewrite !not_elem_of_cons.
    destruct Hc as [-> | ->]; repeat split; (done || apply not_elem_of_nil).
Qed.

Lemma counter_tag_not_dots_r (n : nat) (l : str) :
  existsb (fun c => negb (N.eqb c Path.extsep)) (l ++ counter_tag n) = true.
Proof. rewrite existsb_app, orb_true_iff. right. reflexivity. Qed.

End Numbered.
(** A numbered name splits into the stem with the counter and the
    extension of the name it was made from. *)
Section SplitNumbered.

Variables (filename : str) (n : nat).

Lemma splitext_numbered (base ext : str) :
  Path.splitext filename = (base, ext) ->
  Path.splitext (numbered base ext n) = (base ++ counter_tag n, ext).
Proof.
  rewrite numbered_tag.
  pose proof (counter_tag_plain n Path.extsep (or_introl eq_refl)) as Hdot.
  pose proof (counter_tag_plain n Path.sep (or_intror eq_refl)) as Hsep.
  apply rfind_None in Hdot, Hsep.
  unfold Path.splitext.
  destruct (Path.rfind Path.extsep filename) as [d|] eqn:Hd.
  2:{ intros [= <- <-]. rewrite app_nil_r, !rfind_app, Hdot, Hd. done. }
  pose proof (rfind_lt _ _ _ Hd) as Hlt.
  set (fi := match Path.rfind Path.sep filename with
             | Some i => S i | None => 0 end).
  destruct (fi <=? d) eqn:Hfi; cbn [andb].
  2:{ intros [= <- <-].
      rewrite app_nil_r, !rfind_app, Hdot, Hsep, Hd. fold fi.
      by rewrite Hfi. }
  apply Nat.leb_le in Hfi.
  destruct (existsb _ (take (d - fi) (drop fi filename))) eqn:Hex.
  - intros [= <- <-].
    destruct (rfind_Some _ _ _ Hd) as [Hname Hnot].
    assert (drop d filename = Path.extsep :: drop (S d) filename) as Hext.
    { rewrite Hname at 1. rewrite drop_app_length'; [done|].
      rewrite length_take. lia. }
    assert (Path.rfind Path.sep (drop d filename) = None) as Hnosep.
    { destruct (Path.rfind Path.sep (drop d filename)) as [j|] eqn:Hj; [|done].
      pose proof (rfind_app Path.sep (take d filename) (drop d filename)) as Happ.
      rewrite take_drop, Hj, length_take in Happ.
      subst fi. rewrite Happ in Hfi. lia. }
    assert (Path.rfind Path.sep (take d filename)
            = Path.rfind Path.sep filename) as Hsame.
    { pose proof (rfind_app Path.sep (take d filename) (drop d filename)) as Happ.
      by rewrite take_drop, Hnosep in Happ. }
    assert (Path.rfind Path.extsep (drop d filename) = Some 0) as Hzero.
    { rewrite Hext. simpl. apply rfind_None in Hnot. by rewrite Hnot. }
    rewrite !rfind_app, Hnosep, Hsep, Hsame, Hzero. fold fi.
    rewrite length_take, Nat.min_l, Nat.add_0_r by lia.
    assert ((fi <=? d + length (counter_tag n)) = true) as ->
      by (apply Nat.leb_le; lia).
    assert (take (d + length (counter_tag n) - fi)
              (drop fi (take d filename ++ counter_tag n ++ drop d filename))
            = drop fi (take d filename) ++ counter_tag n) as ->.
    { rewrite drop_app_le by (rewrite length_take; lia).
      rewrite app_assoc. apply take_app_length'.
      rewrite length_app, length_drop, length_take. lia. }
    rewrite counter_tag_not_dots_r. cbn [andb].
    rewrite app_assoc. f_equal.
    + apply take_app_length'. rewrite length_app, length_take. lia.
    + apply drop_app_length'. rewrite length_app, length_take. lia.
  - intros [= <- <-].
    rewrite app_nil_r, !rfind_app, Hdot, Hsep, Hd. fold fi.
    assert ((fi <=? d) = true) as -> by (by apply Nat.leb_le).
    rewrite drop_app_le by lia.
    rewrite take_app_le by (rewrite length_drop; lia).
    by rewrite Hex.
Qed.

End SplitNumbered.

(** X3. The name that [get_unique_name] answers has the extension of the
    filename ([os.path.splitext] of both gives the same extension), and its
    stem starts with the stem of the filename: a file that is renamed on
    collision keeps its type. *)
Theorem get_unique_name_keeps_extension `{OS W} (dest_dir filename : str)
    (w : W) :
  (Path.splitext (get_unique_name dest_dir filename w)).2
  = (Path.splitext filename).2
  /\ (Path.splitext filename).1
     `prefix_of` (Path.splitext (get_unique_name dest_dir filename w)).1.
Proof.
  pose proof (get_unique_name_fuel dest_dir filename w) as Hname.
  rewrite get_unique_name_in_probe in Hname.
  destruct (Path.splitext filename) as [base ext] eqn:Hsplit.
  apply (probe_Some _ filename base ext Hsplit) in Hname
    as (N & _ & -> & _).
  destruct N as [|N].
  - change (candidate filename 0) with filename. by rewrite Hsplit.
  - rewrite (candidate_S _ _ _ _ Hsplit),
      (splitext_numbered filename (S N) base ext Hsplit).
    split; [done|]. by exists (counter_tag (S N)).
Qed.

(** ** The trace of a run *)

Section Trace.

Context `{OS W}.
Variables source dest : str.
Implicit Types (s : state W) (stopped : nat -> bool) (files : list str).

Lemma iteration_trace (idx : nat) (filename : str) s :
  exists s' text group,
    iteration source dest idx filename s = (Returned tt, s')
    /\ queue_out s' = queue_out s ++ [LogLine text; Progress idx]
    /\ syscalls s' = syscalls s ++ group
    /\ file_calls source dest filename group
    /\ moved_count s' = moved_count s + successful_moves group.
Proof.
  unfold iteration, try_body, try_except, mbind, M_bind, mret, M_ret, put,
    ask, makedirs, move, call, set_moved_count, get_moved_count.
  simpl.
  destruct (os_path_isfile _ _); simpl.
  - fold (dest_folder_of dest filename).
    destruct (os_makedirs_exist_ok _ _) as [[e|] w1]; simpl.
    + eexists _, _, _. split; [done|]. simpl.
      split; [by rewrite <- app_assoc|]. split; [done|].
      split; [apply calls_no_folder | unfold successful_moves; simpl; lia].
    + destruct (shutil_move _ _ _) as [[e|] w2]; simpl.
      * eexists _, _, [_; _]. split; [done|]. simpl.
        split; [by rewrite <- app_assoc|].
        split; [by rewrite <- app_assoc|].
        split; [apply calls_move | unfold successful_moves; simpl; lia].
      * eexists _, _, [_; _]. split; [done|]. simpl.
        split; [by rewrite <- app_assoc|].
        split; [by rewrite <- app_assoc|].
        split; [apply calls_move | done].
  - eexists _, _, []. split; [done|]. simpl.
    split; [by rewrite <- app_assoc|]. split; [by rewrite app_nil_r|].
    split; [apply calls_skipped | unfold successful_moves; simpl; lia].
Qed.

(** The loop, file by file: the events come in pairs, the calls in groups,
    one per file attempted and in the order of the listing. *)
Lemma for_files_trace stopped files : forall idx s,
  exists s' texts groups tail,
    for_files source dest stopped idx files s = (Returned tt, s')
    /\ queue_out s' = queue_out s ++ file_pairs idx texts ++ tail
    /\ syscalls s' = syscalls s ++ concat groups
    /\ Forall2 (file_calls source dest) (take (length texts) files) groups
    /\ moved_count s' = moved_count s + successful_moves (concat groups)
    /\ (tail = [] /\ length texts = length files
        \/ tail = [LogLine cancelled_line] /\ length texts < length files
           /\ stopped (idx + length texts) = true)
    /\ (forall i, idx <= i < idx + length texts -> stopped i = false).
Proof.
  induction files as [|filename rest IH]; intros idx s; simpl.
  - exists s, [], [], []. simpl. rewrite !app_nil_r.
    split; [done|]. split; [done|]. split; [done|]. split; [constructor|].
    split; [unfold successful_moves; simpl; lia|]. split; [by left | lia].
  - destruct (stopped idx) eqn:Hstop.
    + eexists _, [], [], [LogLine cancelled_line]. split; [done|]. simpl.
      rewrite app_nil_r.
      split; [done|]. split; [done|]. split; [constructor|].
      split; [unfold successful_moves; simpl; lia|].
      split; [right | intros i Hi; lia].
      split; [done|]. split; [lia | by rewrite Nat.add_0_r].
    + destruct (iteration_trace idx filename s)
        as (s1 & text & group & Hit & Hq1 & Hs1 & Hcalls & Hm1).
      destruct (IH (S idx) s1)
        as (s' & texts & groups & tail & Hloop & Hq & Hs & Hall & Hm
            & Htail & Hnot).
      exists s', (text :: texts), (group :: groups), tail.
      split. { unfold mbind, M_bind. by rewrite Hit. }
      simpl. rewrite Hq, Hq1, Hs, Hs1, Hm, Hm1, successful_moves_app,
        <- !app_assoc.
      split; [done|]. split; [done|]. split; [by constructor|].
      split; [lia|]. split.
      * destruct Htail as [[-> Hlen]|(-> & Hlt & Hst)]; [left | right].
        -- split; [done | lia].
        -- split; [done|]. split; [lia|].
           by replace (idx + S (length texts)) with (S idx + length texts)
             by lia.
      * intros i Hi. destruct (decide (i = idx)) as [->|]; [done|].
        apply Hnot. lia.
Qed.

Lemma for_cats_ok (cats : list str) : forall s s1,
  for_cats dest cats s = (Returned tt, s1) ->
  queue_out s1 = queue_out s
  /\ moved_count s1 = moved_count s
  /\ syscalls s1
     = syscalls s ++ map (fun cat => Makedirs (Path.join dest cat) None) cats.
Proof.
  induction cats as [|cat rest IH]; intros s s1; simpl.
  - intros [= <-]. by rewrite app_nil_r.
  - unfold mbind, M_bind, makedirs, call.
    destruct (os_makedirs_exist_ok _ _) as [[e|] w1]; simpl; [done|].
    intros (Hq & Hm & Hs)%IH. simpl in *.
    by rewrite Hq, Hm, Hs, <- app_assoc.
Qed.

Lemma prepare_ok s s1 :
  prepare dest s = (Returned tt, s1) ->
  queue_out s1 = queue_out s
  /\ moved_count s1 = moved_count s
  /\ syscalls s1 = syscalls s ++ prepare_calls dest.
Proof.
  unfold prepare, mbind, M_bind.
  destruct (for_cats dest (map fst FILE_TYPES) s) as [[[]|e] s0] eqn:Hcats;
    [|done].
  apply for_cats_ok in Hcats as (Hq & Hm & Hs).
  unfold makedirs, call.
  destruct (os_makedirs_exist_ok _ _) as [[e|] w1]; [done|].
  intros [= <-]. cbn [queue_out moved_count syscalls].
  split; [done|]. split; [done|].
  unfold prepare_calls. by rewrite Hs, map_app, <- app_assoc.
Qed.

(** A run that returns after a listing that succeeded. *)
Lemma run_returned stopped (w : W) (names : list str) (s' : state W) :
  os_listdir source w = inr names ->
  run source dest stopped (initial w) = (Returned tt, s') ->
  exists texts groups tail,
    queue_out s'
    = Start (length (regular_files source w names))
        :: file_pairs 1 texts ++ tail
        ++ [Done (successful_moves (concat groups))]
    /\ syscalls s' = prepare_calls dest ++ concat groups
    /\ moved_count s' = successful_moves (concat groups)
    /\ Forall2 (file_calls source dest)
         (take (length texts) (regular_files source w names)) groups
    /\ (tail = []
        /\ length texts = length (regular_files source w names)
        \/ tail = [LogLine cancelled_line]
           /\ length texts < length (regular_files source w names)
           /\ stopped (1 + length texts) = true)
    /\ (forall i, 1 <= i < 1 + length texts -> stopped i = false).
Proof.
  intros Hlist. rewrite (run_listed _ _ _ _ _ Hlist).
  set (files := regular_files source w names).
  unfold mbind at 1, M_bind at 1.
  destruct (prepare dest (started w files)) as [[[]|e] s1] eqn:Hprep; [|done].
  apply prepare_ok in Hprep as (Hq1 & Hm1 & Hs1). simpl in *.
  destruct (for_files_trace stopped files 1 s1)
    as (s2 & texts & groups & tail & Hloop & Hq & Hs & Hall & Hm
        & Htail & Hnot).
  unfold mbind, M_bind. rewrite Hloop.
  unfold get_moved_count, put. simpl. intros [= <-]. simpl.
  exists texts, groups, tail.
  rewrite Hq, Hq1, Hs, Hs1, Hm, Hm1. simpl.
  rewrite <- !app_assoc. repeat split; auto.
Qed.

End Trace.

Section TraceFacts.

Implicit Types (idx : nat) (texts : list str).


Lemma file_pairs_events idx texts (ev : event) :
  ev ∈ file_pairs idx texts ->
  (exists text, ev = LogLine text) \/ (exists i, ev = Progress i).
Proof.
  revert idx. induction texts as [|text texts IH]; intros idx; simpl.
  - by intros ?%elem_of_nil.
  - rewrite !elem_of_cons. intros [->|[->|Hin]]; eauto.
Qed.



Lemma prepare_calls_no_move dest : successful_moves (prepare_calls dest) = 0.
Proof. reflexivity. Qed.




Lemma prepare_calls_allowed source dest (files : list str) :
  Forall (call_allowed source dest files) (prepare_calls dest).
Proof.
  unfold prepare_calls. apply Forall_forall.
  intros c (cat & -> & Hcat)%list_elem_of_fmap. by exists cat.
Qed.

Lemma groups_sources source dest (attempted : list str)
    (groups : list (list syscall)) :
  Forall2 (file_calls source dest) attempted groups ->
  move_sources (concat groups) `sublist_of` (Path.join source <$> attempted).
Proof.
  induction 1 as [|filename group attempted groups Hcalls _ IH]; simpl.
  - constructor.
  - unfold move_sources in *. rewrite omap_app.
    destruct Hcalls as [|e|name r]; simpl.
    + by apply sublist_cons.
    + by apply sublist_cons.
    + by apply sublist_skip.
Qed.

End TraceFacts.

Section RunFacts.

Context `{OS W}.
Variables source dest : str.
Implicit Types (s : state W) (stopped : nat -> bool) (w : W).

Lemma for_cats_only_makedirs (cats : list str) : forall s r s1,
  for_cats dest cats s = (r, s1) ->
  exists extra,
    syscalls s1 = syscalls s ++ extra /\ Forall (is_makedirs_of dest cats) extra.
Proof.
  induction cats as [|cat rest IH]; intros s r s1; simpl.
  - intros [= <- <-]. exists []. by rewrite app_nil_r.
  - unfold mbind, M_bind, makedirs, call.
    assert (forall raised, is_makedirs_of dest (cat :: rest)
                             (Makedirs (Path.join dest cat) raised)) as Hhere.
    { intros raised. exists cat, raised. split; [|done].
      apply elem_of_cons. by left. }
    destruct (os_makedirs_exist_ok _ _) as [[e|] w1]; simpl.
    + intros [= <- <-]. simpl. exists [Makedirs (Path.join dest cat) (Some e)].
      split; [done|]. by constructor.
    + intros (extra & Hs & Hall)%IH. simpl in Hs.
      exists (Makedirs (Path.join dest cat) None :: extra).
      split; [by rewrite Hs, <- app_assoc|].
      constructor; [done|].
      eapply Forall_impl; [exact Hall|].
      intros c (cat' & raised & Hin & ->). exists cat', raised.
      split; [|done]. apply elem_of_cons. by right.
Qed.

Lemma prepare_only_makedirs s r s1 :
  prepare dest s = (r, s1) ->
  exists extra,
    syscalls s1 = syscalls s ++ extra
    /\ Forall (is_makedirs_of dest folder_names) extra.
Proof.
  unfold prepare, mbind, M_bind.
  destruct (for_cats dest (map fst FILE_TYPES) s) as [r0 s0] eqn:Hcats.
  apply for_cats_only_makedirs in Hcats as (extra & Hs & Hall).
  assert (Forall (is_makedirs_of dest folder_names) extra) as Hall'.
  { eapply Forall_impl; [exact Hall|].
    intros c (cat & raised & Hin & ->). exists cat, raised.
    split; [|done]. apply elem_of_app. by left. }
  destruct r0 as [[]|e].
  - unfold makedirs, call.
    destruct (os_makedirs_exist_ok _ _) as [[e|] w1]; intros [= <- <-];
      cbn [syscalls]; eexists (extra ++ [_]);
      (split; [by rewrite Hs, <- app_assoc|]);
      (apply Forall_app; split; [done|]); repeat constructor;
      eexists OTHER_FOLDER_NAME, _;
      (split; [apply elem_of_app; right; by apply list_elem_of_singleton | done]).
  - intros [= <- <-]. by exists extra.
Qed.

(** The calls of every run: the six folders at most, then the groups of the
    files attempted. *)
Lemma run_calls stopped w (names : list str) :
  os_listdir source w = inr names ->
  exists made (attempted : list str) (groups : list (list syscall)),
    syscalls (run source dest stopped (initial w)).2 = made ++ concat groups
    /\ Forall (is_makedirs_of dest folder_names) made
    /\ attempted `prefix_of` regular_files source w names
    /\ Forall2 (file_calls source dest) attempted groups.
Proof.
  intros Hlist.
  destruct (run source dest stopped (initial w)) as [[[]|e] s'] eqn:Hrun.
  - destruct (run_returned source dest stopped w names s' Hlist Hrun)
      as (texts & groups & tail & _ & Hs & _ & Hall & _).
    exists (prepare_calls dest),
      (take (length texts) (regular_files source w names)), groups. simpl.
    split; [done|]. split; [|split; [|done]].
    + apply Forall_forall.
      intros c (cat & -> & Hcat)%list_elem_of_fmap. by exists cat, None.
    + apply prefix_take.
  - rewrite (run_listed _ _ _ _ _ Hlist) in Hrun.
    unfold mbind at 1, M_bind at 1 in Hrun.
    destruct (prepare dest _) as [[[]|e'] s1] eqn:Hprep.
    + destruct (for_files_spec source dest stopped
                  (regular_files source w names) 1 s1) as (s2 & Hloop & _).
      unfold mbind, M_bind in Hrun. by rewrite Hloop in Hrun.
    + injection Hrun as <- <-.
      apply prepare_only_makedirs in Hprep as (extra & Hs & Hall).
      exists extra, [], []. simpl in *. rewrite app_nil_r.
      split; [done|]. split; [done|]. split; [apply prefix_nil | constructor].
Qed.

Lemma run_event_shape_raised stopped w (e : Exception) :
  (run source dest stopped (initial w)).1 = Raised e ->
  exists total,
    queue_out (run source dest stopped (initial w)).2 = [Start total].
Proof.
  intros Hraised.
  destruct (run_outcome source dest stopped w)
    as [(e' & _ & Hrun)|[(names & e' & s' & _ & Hrun & Hq)
                        |(names & s1 & s2 & _ & _ & _ & _ & _ & _ & Hrun)]];
    rewrite Hrun in *; try done.
  eauto.
Qed.

Lemma get_unique_name_free (dest_dir filename : str) w :
  os_path_exists (Path.join dest_dir (get_unique_name dest_dir filename w)) w
  = false.
Proof.
  pose proof (get_unique_name_fuel dest_dir filename w) as Hname.
  rewrite get_unique_name_in_probe in Hname.
  destruct (Path.splitext filename) as [base ext] eqn:Hsplit.
  by apply (probe_Some _ filename base ext Hsplit) in Hname
    as (N & _ & _ & Hfree & _).
Qed.

End RunFacts.




(** X6. The count that [Done] carries is the number of calls of
    [shutil.move] that returned without raising during the run; it is also
    the final value of [moved_count]. *)
Theorem done_counts_successful_moves `{OS W} (source dest : str)
    (stopped : nat -> bool) (w : W) (moved : nat) :
  Done moved ∈ events source dest stopped w ->
  moved = successful_moves (syscalls (run source dest stopped (initial w)).2)
  /\ moved = moved_count (run source dest stopped (initial w)).2.
Proof.
  unfold events. intros Hdone.
  destruct (os_listdir source w) as [e|names] eqn:Hlist.
  { rewrite (run_listing_failed _ _ _ _ _ Hlist) in Hdone. simpl in Hdone.
    by apply list_elem_of_singleton in Hdone. }
  destruct (run source dest stopped (initial w)) as [[[]|e] s'] eqn:Hrun.
  - destruct (run_returned source dest stopped w names s' Hlist Hrun)
      as (texts & groups & tail & Hq & Hs & Hm & _ & Htail & _).
    simpl in Hdone |- *. rewrite Hq in Hdone.
    rewrite Hs, Hm, successful_moves_app, prepare_calls_no_move.
    rewrite elem_of_cons, !elem_of_app, list_elem_of_singleton in Hdone.
    destruct Hdone as [[=]|[Hin|[Hin|[= ->]]]]; [| |done].
    + by apply file_pairs_events in Hin as [[? [=]]|[? [=]]].
    + destruct Htail as [[-> _]|(-> & _)].
      * by apply elem_of_nil in Hin.
      * by apply list_elem_of_singleton in Hin.
  - pose proof (run_event_shape_raised source dest stopped w) as Hshape.
    rewrite Hrun in Hshape. destruct (Hshape e eq_refl) as [total Hq].
    simpl in *. rewrite Hq in Hdone.
    by apply list_elem_of_singleton in Hdone.
Qed.

Lemma done_counts_successful_moves_witness :
  Done 3 ∈ events Worlds.src Worlds.dst (fun _ => false) Worlds.three_files
  /\ 3 = successful_moves
           (syscalls (run Worlds.src Worlds.dst (fun _ => false)
                        (initial Worlds.three_files)).2).
Proof.
  assert (Done 3
            ∈ events Worlds.src Worlds.dst (fun _ => false) Worlds.three_files)
    as Hdone by (vm_compute; repeat constructor).
  split; [exact Hdone|].
  exact (proj1 (done_counts_successful_moves Worlds.src Worlds.dst
                  (fun _ => false) Worlds.three_files 3 Hdone)).
Defined.

(** X7. When the listing holds no regular file and the preparation
    succeeds, the run puts [Start 0] and [Done 0] and nothing else, whatever
    the cancellation flag says: the flag is only looked at in the loop, so a
    cancellation is not reported; the only calls are those that create the
    six folders. *)
Theorem run_empty_listing `{OS W} (source dest : str) (stopped : nat -> bool)
    (w : W) (names : list str) (s1 : state W) :
  os_listdir source w = inr names ->
  regular_files source w names = [] ->
  prepare dest (started w []) = (Returned tt, s1) ->
  run source dest stopped (initial w)
  = (Returned tt, State (world s1) [Start 0; Done 0] 0 (prepare_calls dest)).
Proof.
  intros Hlist Hnone Hprep.
  rewrite (run_listed _ _ _ _ _ Hlist), Hnone.
  unfold mbind, M_bind. rewrite Hprep.
  apply prepare_ok in Hprep as (Hq & Hm & Hs). simpl in *.
  unfold get_moved_count, put. simpl. by rewrite Hq, Hm, Hs.
Qed.

Lemma run_empty_listing_witness :
  run Worlds.src Worlds.dst (fun _ => true) (initial Worlds.only_subdir)
  = (Returned tt,
     State (world Worlds.only_subdir_prepared) [Start 0; Done 0] 0
       (prepare_calls Worlds.dst)).
Proof.
  apply (run_empty_listing Worlds.src Worlds.dst (fun _ => true)
           Worlds.only_subdir [lit "sub"] Worlds.only_subdir_prepared);
    reflexivity.
Defined.



(** X9. The files that a run asks [shutil.move] to move are files of the
    listing, taken in the order of the listing and each one at most once:
    the sources of the moves form a sublist of the listed paths. *)
Theorem run_moves_follow_listing `{OS W} (source dest : str)
    (stopped : nat -> bool) (w : W) (names : list str) :
  os_listdir source w = inr names ->
  move_sources (syscalls (run source dest stopped (initial w)).2)
  `sublist_of` (Path.join source <$> regular_files source w names).
Proof.
  intros Hlist.
  destruct (run_calls source dest stopped w names Hlist)
    as (made & attempted & groups & -> & Hmade & [k ->] & Hall).
  unfold move_sources. rewrite omap_app, fmap_app.
  assert (omap (fun c => match c with
                         | Move src _ _ => Some src
                         | _ => None
                         end) made = []) as ->.
  { induction Hmade as [|c made (cat & raised & _ & ->) _ IH]; [done|].
    simpl. exact IH. }
  simpl. apply sublist_inserts_r.
  by apply (groups_sources source dest).
Qed.

Lemma run_moves_follow_listing_witness :
  move_sources (syscalls (run Worlds.src Worlds.dst (fun i => 3 <=? i)
                            (initial Worlds.three_files)).2)
  `sublist_of` (Path.join Worlds.src
                  <$> regular_files Worlds.src Worlds.three_files
                        Worlds.three_names).
Proof.
  apply (run_moves_follow_listing Worlds.src Worlds.dst (fun i => 3 <=? i)
           Worlds.three_files Worlds.three_names).
  reflexivity.
Defined.

(** X10. The worker never asks for a move onto a path that exists.  When the
    file is still a regular file and the folder of its category could be
    made, which leaves world [w1], the iteration makes exactly two calls,
    that [os.makedirs] and one [shutil.move] of the file to a name in the
    folder, and the path it moves to does not exist in [w1]. *)
Theorem move_target_is_free `{OS W} (source dest : str) (idx : nat)
    (filename : str) (s : state W) (w1 : W) :
  os_path_isfile (Path.join source filename) (world s) = true ->
  os_makedirs_exist_ok (dest_folder_of dest filename) (world s) = (None, w1) ->
  exists name raised,
    syscalls (iteration source dest idx filename s).2
    = syscalls s
        ++ [Makedirs (dest_folder_of dest filename) None;
            Move (Path.join source filename)
              (Path.join (dest_folder_of dest filename) name) raised]
    /\ os_path_exists (Path.join (dest_folder_of dest filename) name) w1
       = false.
Proof.
  intros Hfile Hmk.
  exists (get_unique_name (dest_folder_of dest filename) filename w1).
  unfold iteration, try_body, try_except, mbind, M_bind, mret, M_ret, put,
    ask, makedirs, move, call, set_moved_count, get_moved_count.
  simpl. rewrite Hfile. simpl.
  fold (dest_folder_of dest filename). rewrite Hmk. simpl.
  destruct (shutil_move _ _ _) as [[e|] w2]; simpl;
    eexists; (split; [by rewrite <- app_assoc | apply get_unique_name_free]).
Qed.

Lemma move_target_is_free_witness :
  exists name raised,
    syscalls (iteration Worlds.src Worlds.dst 1 (lit "photo.png")
                (initial Worlds.collision)).2
    = syscalls (initial Worlds.collision)
        ++ [Makedirs (dest_folder_of Worlds.dst (lit "photo.png")) None;
            Move (Path.join Worlds.src (lit "photo.png"))
              (Path.join (dest_folder_of Worlds.dst (lit "photo.png")) name)
              raised]
    /\ os_path_exists
         (Path.join (dest_folder_of Worlds.dst (lit "photo.png")) name)
         Worlds.collision
       = false.
Proof.
  apply (move_target_is_free Worlds.src Worlds.dst 1 (lit "photo.png")
           (initial Worlds.collision) Worlds.collision);
    reflexivity.
Defined.

(** ** The window *)

Section Window.

Import Gui.
Context `{OS W}.
Implicit Types (g : gui) (batch : list event) (a : action W).

Lemma cursor_buttons g :
  organize_btn (_animate_terminal_cursor g) = organize_btn g
  /\ cancel_btn (_animate_terminal_cursor g) = cancel_btn g.
Proof. unfold _animate_terminal_cursor. by destruct (endswith _ _). Qed.

Lemma browse_source_buttons (folder : str) g :
  organize_btn (_browse_source folder g) = organize_btn g
  /\ cancel_btn (_browse_source folder g) = cancel_btn g.
Proof. by destruct folder. Qed.

Lemma browse_dest_buttons (folder : str) g :
  organize_btn (_browse_dest folder g) = organize_btn g
  /\ cancel_btn (_browse_dest folder g) = cancel_btn g.
Proof. by destruct folder. Qed.

Lemma on_cancel_buttons (is_alive : bool) g :
  organize_btn (_on_cancel is_alive g) = organize_btn g
  /\ cancel_btn (_on_cancel is_alive g) = cancel_btn g.
Proof. unfold _on_cancel. by destruct (worker g), is_alive. Qed.

Lemma on_organize_exclusive (w : W) g :
  exclusive g -> exclusive (_on_organize w g).2.
Proof.
  unfold _on_organize.
  destruct (is_empty _ || is_empty _); [done|].
  destruct (os_listdir _ _); right; done.
Qed.

Lemma process_item_exclusive g (item : event) :
  exclusive g -> exclusive (process_item g item).
Proof. destruct item; try done. by left. Qed.

Lemma process_queue_exclusive batch : forall g,
  exclusive g -> exclusive (_process_queue batch g).
Proof.
  induction batch as [|item batch IH]; intros g Hg; [done|].
  apply IH. by apply process_item_exclusive.
Qed.

Lemma act_exclusive g a : exclusive g -> exclusive (act g a).
Proof.
  intros Hg. destruct a as [folder|folder|text|text|w|is_alive|batch|]; simpl.
  - unfold exclusive. by destruct (browse_source_buttons folder g) as [-> ->].
  - unfold exclusive. by destruct (browse_dest_buttons folder g) as [-> ->].
  - done.
  - done.
  - destruct (organize_btn g) eqn:Hbtn; [|done].
    by apply on_organize_exclusive.
  - destruct (cancel_btn g) eqn:Hbtn; [|done].
    unfold exclusive. by destruct (on_cancel_buttons is_alive g) as [-> ->].
  - by apply process_queue_exclusive.
  - unfold exclusive. by destruct (cursor_buttons g) as [-> ->].
Qed.

Lemma process_item_quiet g (item : event) :
  (forall n, item <> Done n) ->
  organize_btn (process_item g item) = organize_btn g
  /\ cancel_btn (process_item g item) = cancel_btn g
  /\ dialogs (process_item g item) = dialogs g.
Proof. destruct item; try done. intros Hne. by destruct (Hne moved). Qed.

Lemma process_queue_quiet batch : forall g,
  Forall (fun item => forall n, item <> Done n) batch ->
  organize_btn (_process_queue batch g) = organize_btn g
  /\ cancel_btn (_process_queue batch g) = cancel_btn g
  /\ dialogs (_process_queue batch g) = dialogs g.
Proof.
  induction batch as [|item batch IH]; intros g Hq; [done|].
  apply Forall_cons in Hq as [Hitem Hq]. simpl.
  destruct (IH (process_item g item) Hq) as (-> & -> & ->).
  by apply process_item_quiet.
Qed.

Lemma act_locked g a :
  quiet a -> organize_btn g = disabled ->
  organize_btn (act g a) = disabled.
Proof.
  intros Hq Hg. destruct a as [folder|folder|text|text|w|is_alive|batch|]; simpl.
  - by destruct (browse_source_buttons folder g) as [-> _].
  - by destruct (browse_dest_buttons folder g) as [-> _].
  - done.
  - done.
  - by rewrite Hg.
  - destruct (cancel_btn g); [|done].
    by destruct (on_cancel_buttons is_alive g) as [-> _].
  - by destruct (process_queue_quiet batch g Hq) as (-> & _).
  - by destruct (cursor_buttons g) as [-> _].
Qed.

End Window.

(** X11. Whatever the user does and whatever arrives on the queue, exactly
    one of the two buttons is enabled: "Start" and "Cancel" are never both
    available, and never both unavailable. *)
Theorem buttons_are_exclusive `{OS W} (actions : list (Gui.action W)) :
  Gui.exclusive (fold_left Gui.act actions Gui.init).
Proof.
  assert (forall g, Gui.exclusive g ->
                    Gui.exclusive (fold_left Gui.act actions g)) as Hinv.
  { induction actions as [|a actions IH]; intros g Hg; [done|].
    apply IH. by apply act_exclusive. }
  apply Hinv. by left.
Qed.

(** X12. Only a "done" item enables the start button again: once it is
    disabled, it stays disabled through every click, folder choice, cursor
    tick and batch of queue items, as long as no batch holds a "done". *)
Theorem start_button_stays_disabled `{OS W} (actions : list (Gui.action W))
    (g : Gui.gui) :
  Gui.organize_btn g = Gui.disabled ->
  Forall Gui.quiet actions ->
  Gui.organize_btn (fold_left Gui.act actions g) = Gui.disabled.
Proof.
  intros Hg Hq. revert g Hg.
  induction Hq as [|a actions Ha _ IH]; intros g Hg; [done|].
  apply IH. by apply act_locked.
Qed.

Lemma start_button_stays_disabled_witness :
  Gui.organize_btn
    (fold_left Gui.act
       [Gui.ClickOrganize Worlds.three_files; Gui.Tick; Gui.ClickCancel false;
        Gui.Drain [Start 1; LogLine (lit "x"); Progress 1];
        Gui.BrowseSource (lit "/src")]
       Windows.typed_no_source)
  = Gui.disabled.
Proof.
  apply start_button_stays_disabled; [reflexivity|].
  repeat constructor; discriminate.
Defined.

Section WindowAndWorker.

Import Gui.
Context `{OS W}.
Implicit Types (g : gui) (batch : list event).

Lemma process_queue_app batch1 batch2 g :
  _process_queue (batch1 ++ batch2) g
  = _process_queue batch2 (_process_queue batch1 g).
Proof. apply fold_left_app. Qed.

Lemma process_item_within g (item : event) :
  progress_value g <= progress_max g ->
  (forall idx, item = Progress idx -> idx <= progress_max g) ->
  progress_max (process_item g item) = progress_max g
  /\ progress_value (process_item g item) <= progress_max g.
Proof. intros Hg Hitem. destruct item; simpl; auto. Qed.

Lemma process_queue_within batch : forall g,
  progress_value g <= progress_max g ->
  progress_within (progress_max g) batch ->
  progress_max (_process_queue batch g) = progress_max g
  /\ progress_value (_process_queue batch g) <= progress_max g.
Proof.
  induction batch as [|item batch IH]; intros g Hg Hb; [done|].
  apply Forall_cons in Hb as [Hitem Hb]. simpl.
  destruct (process_item_within g item Hg Hitem) as [Hmax Hval].
  rewrite <- Hmax in Hb, Hval |- *. by apply IH.
Qed.

Lemma file_pairs_within (idx : nat) (texts : list str) :
  Forall (fun item => forall i, item = Progress i -> i < idx + length texts)
    (file_pairs idx texts).
Proof.
  revert idx. induction texts as [|text texts IH]; intros idx; simpl.
  - constructor.
  - constructor; [done|]. constructor; [intros i [= ->]; lia|].
    replace (idx + S (length texts)) with (S idx + length texts) by lia.
    apply IH.
Qed.

(** The [Progress] items of a run stay within the number of files listed. *)
Lemma events_within (source dest : str) (stopped : nat -> bool) (w : W)
    (names : list str) :
  os_listdir source w = inr names ->
  progress_within (length (regular_files source w names))
    (events source dest stopped w).
Proof.
  intros Hlist. unfold events, progress_within.
  destruct (run source dest stopped (initial w)) as [[[]|e] s'] eqn:Hrun.
  - destruct (run_returned source dest stopped w names s' Hlist Hrun)
      as (texts & groups & tail & Hq & _ & _ & Hall & Htail & _).
    simpl. rewrite Hq.
    constructor; [done|]. apply Forall_app. split.
    + eapply Forall_impl; [apply (file_pairs_within 1 texts)|].
      intros ev Hev idx Hidx. specialize (Hev idx Hidx). simpl in Hev.
      destruct Htail as [[_ Hlen]|(_ & Hlt & _)]; lia.
    + apply Forall_app. split; [|by repeat constructor].
      destruct Htail as [[-> _]|(-> & _)]; by repeat constructor.
  - pose proof (run_event_shape_raised source dest stopped w e) as Hshape.
    rewrite Hrun in Hshape. destruct (Hshape eq_refl) as [total Hq].
    simpl in *. rewrite Hq. by repeat constructor.
Qed.

Lemma process_item_done g (moved : nat) :
  organize_btn (process_item g (Done moved)) = normal
  /\ cancel_btn (process_item g (Done moved)) = disabled
  /\ progress_value (process_item g (Done moved))
     = progress_max (process_item g (Done moved))
  /\ dialogs (process_item g (Done moved))
     = dialogs g
         ++ [showinfo (lit "Success") (of_nat moved ++ lit " files organized!")]
  /\ log_text (process_item g (Done moved))
     = log_text g
         ++ (lit "[SYS] Completed! " ++ of_nat moved ++ lit " files organized.")
         ++ newline.
Proof. repeat split. Qed.

(** What a click on the start button that returns leaves behind. *)
Lemma on_organize_returned (w : W) g g1 :
  source_var g <> [] -> dest_var g <> [] ->
  _on_organize w g = (Returned tt, g1) ->
  exists names,
    os_listdir (source_var g) w = inr names
    /\ g1 = _log (lit "[SYS] Organization started...")
              (set_worker (Some (Worker (source_var g) (dest_var g) false))
                 (set_progress 0
                    (length (regular_files (source_var g) w names))
                    (set_buttons disabled normal g))).
Proof.
  intros Hsrc Hdst. unfold _on_organize.
  destruct (source_var g) as [|c src] eqn:Hs; [done|].
  destruct (dest_var g) as [|c' dst] eqn:Hd; [done|].
  simpl.
  destruct (os_listdir (c :: src) w) as [e|names]; [done|].
  intros [= <-]. by exists names.
Qed.

End WindowAndWorker.

(** X13. The progress value never exceeds the progress maximum.  After a
    click on the start button that returns, in the world in which the worker
    then runs, and whatever part of the events of the run has been drained
    so far, [progress_value <= progress_max]; in particular the value is
    positive only when the maximum is, which is what the division in
    [_animate_progress_gradient] needs. *)
Theorem progress_never_exceeds_max `{OS W} (w : W) (stopped : nat -> bool)
    (g g1 : Gui.gui) (delivered : list event) :
  Gui.source_var g <> [] -> Gui.dest_var g <> [] ->
  Gui._on_organize w g = (Returned tt, g1) ->
  delivered `prefix_of` events (Gui.source_var g) (Gui.dest_var g) stopped w ->
  Gui.progress_value (Gui._process_queue delivered g1)
  <= Gui.progress_max (Gui._process_queue delivered g1).
Proof.
  intros Hsrc Hdst Hclick [rest Hrest].
  destruct (on_organize_returned w g g1 Hsrc Hdst Hclick)
    as (names & Hlist & ->).
  pose proof (events_within (Gui.source_var g) (Gui.dest_var g) stopped w
                names Hlist) as Hwithin.
  rewrite Hrest in Hwithin. apply Forall_app in Hwithin as [Hwithin _].
  match goal with |- context [Gui._process_queue delivered ?g1] =>
    destruct (process_queue_within delivered g1) as [-> Hle] end;
    simpl; auto; lia.
Qed.

Lemma progress_never_exceeds_max_witness :
  Gui.progress_value
    (Gui._process_queue
       (take 4 (events Worlds.src Worlds.dst (fun _ => false)
                  Worlds.three_files))
       Windows.typed_three_files)
  <= Gui.progress_max
       (Gui._process_queue
          (take 4 (events Worlds.src Worlds.dst (fun _ => false)
                     Worlds.three_files))
          Windows.typed_three_files).
Proof.
  apply (progress_never_exceeds_max Worlds.three_files (fun _ => false)
           Windows.typed Windows.typed_three_files).
  - discriminate.
  - discriminate.
  - reflexivity.
  - apply prefix_take.
Defined.

(** X14. A run that returns gives the window back.  After a click on the
    start button that returns, when [run] returns in the same world and all
    its events have been drained: the start button is enabled and the cancel
    button disabled, the progress value is the maximum, the last dialog
    shown is the "Success" box with the number of files moved, and the log
    ends with the line that reports this number. *)
Theorem returned_run_restores_the_window `{OS W} (w : W)
    (stopped : nat -> bool) (g g1 : Gui.gui) :
  Gui.source_var g <> [] -> Gui.dest_var g <> [] ->
  Gui._on_organize w g = (Returned tt, g1) ->
  (run (Gui.source_var g) (Gui.dest_var g) stopped (initial w)).1
  = Returned tt ->
  exists moved g2,
    g2 = Gui._process_queue
           (events (Gui.source_var g) (Gui.dest_var g) stopped w) g1
    /\ moved = successful_moves
                 (syscalls (run (Gui.source_var g) (Gui.dest_var g) stopped
                              (initial w)).2)
    /\ Gui.organize_btn g2 = Gui.normal
    /\ Gui.cancel_btn g2 = Gui.disabled
    /\ Gui.progress_value g2 = Gui.progress_max g2
    /\ last (Gui.dialogs g2)
       = Some (Gui.showinfo (lit "Success")
                 (of_nat moved ++ lit " files organized!"))
    /\ (lit "[SYS] Completed! " ++ of_nat moved ++ lit " files organized."
          ++ Gui.newline) `suffix_of` Gui.log_text g2.
Proof.
  intros Hsrc Hdst Hclick Hret.
  destruct (on_organize_returned w g g1 Hsrc Hdst Hclick)
    as (names & Hlist & _).
  unfold events.
  destruct (run (Gui.source_var g) (Gui.dest_var g) stopped (initial w))
    as [r s'] eqn:Hrun.
  simpl in Hret. subst r.
  destruct (run_returned _ _ stopped w names s' Hlist Hrun)
    as (texts & groups & tail & Hq & Hs & _).
  eexists (successful_moves (concat groups)), _. split; [reflexivity|].
  cbn [snd queue_out syscalls].
  rewrite Hs, successful_moves_app, prepare_calls_no_move, Hq.
  split; [reflexivity|].
  rewrite app_comm_cons, app_assoc, process_queue_app.
  change (Gui._process_queue [Done ?n] ?g0) with (Gui.process_item g0 (Done n)).
  match goal with |- context [Gui.process_item ?g0 (Done ?n)] =>
    destruct (process_item_done g0 n) as (-> & -> & -> & -> & ->) end.
  split; [reflexivity|]. split; [reflexivity|]. split; [reflexivity|].
  split; [apply last_snoc|].
  match goal with |- _ `suffix_of` (?l ++ _) => exists l end.
  rewrite <- !app_assoc. reflexivity.
Qed.

Lemma returned_run_restores_the_window_witness :
  exists moved g2,
    g2 = Gui._process_queue
           (events Worlds.src Worlds.dst (fun _ => false) Worlds.three_files)
           Windows.typed_three_files
    /\ moved = successful_moves
                 (syscalls (run Worlds.src Worlds.dst (fun _ => false)
                              (initial Worlds.three_files)).2)
    /\ Gui.organize_btn g2 = Gui.normal
    /\ Gui.cancel_btn g2 = Gui.disabled
    /\ Gui.progress_value g2 = Gui.progress_max g2
    /\ last (Gui.dialogs g2)
       = Some (Gui.showinfo (lit "Success")
                 (of_nat moved ++ lit " files organized!"))
    /\ (lit "[SYS] Completed! " ++ of_nat moved ++ lit " files organized."
          ++ Gui.newline) `suffix_of` Gui.log_text g2.
Proof.
  apply (returned_run_restores_the_window Worlds.three_files (fun _ => false)
           Windows.typed Windows.typed_three_files).
  - discriminate.
  - discriminate.
  - reflexivity.
  - reflexivity.
Defined.

(** X15. When the preparation of the folders raises, the user is told
    nothing.  After a click on the start button that returns, if an
    exception leaves [run] in the same world, then draining all the events
    of the run changes nothing in the window: no line is logged and no
    dialog is shown, the start button stays disabled and the cancel button
    enabled. *)
Theorem failed_preparation_shows_nothing `{OS W} (w : W)
    (stopped : nat -> bool) (g g1 : Gui.gui) (e : Exception) :
  Gui.source_var g <> [] -> Gui.dest_var g <> [] ->
  Gui._on_organize w g = (Returned tt, g1) ->
  (run (Gui.source_var g) (Gui.dest_var g) stopped (initial w)).1 = Raised e ->
  Gui._process_queue (events (Gui.source_var g) (Gui.dest_var g) stopped w) g1
  = g1
  /\ Gui.organize_btn g1 = Gui.disabled
  /\ Gui.cancel_btn g1 = Gui.normal.
Proof.
  intros Hsrc Hdst Hclick Hraised.
  destruct (on_organize_returned w g g1 Hsrc Hdst Hclick)
    as (names & Hlist & ->).
  destruct (run_event_shape_raised _ _ stopped w e Hraised) as [total Hq].
  unfold events. by rewrite Hq.
Qed.

Lemma failed_preparation_shows_nothing_witness :
  Gui._process_queue
    (events Worlds.src Worlds.dst (fun _ => false) Worlds.images_is_a_file)
    Windows.typed_images_is_a_file
  = Windows.typed_images_is_a_file
  /\ Gui.organize_btn Windows.typed_images_is_a_file = Gui.disabled
  /\ Gui.cancel_btn Windows.typed_images_is_a_file = Gui.normal.
Proof.
  apply (failed_preparation_shows_nothing Worlds.images_is_a_file
           (fun _ => false) Windows.typed Windows.typed_images_is_a_file
           (MemFS.EEXIST (lit "/dst/Images")));
    (discriminate || reflexivity).
Defined.

(** X16. The "error" item of the worker is never shown.  When the listing
    of the worker fails, draining the events of the run leaves any window
    exactly as it was: [_process_queue] has no branch for "error", so the
    message is dropped and the buttons are not given back. *)
Theorem listing_error_is_never_shown `{OS W} (source dest : str)
    (stopped : nat -> bool) (w : W) (e : Exception) (g : Gui.gui) :
  os_listdir source w = inl e ->
  Gui._process_queue (events source dest stopped w) g = g.
Proof.
  intros Hlist. unfold events.
  by rewrite (run_listing_failed _ _ _ _ _ Hlist).
Qed.

Lemma listing_error_is_never_shown_witness :
  Gui._process_queue
    (events Worlds.src Worlds.dst (fun _ => false) Worlds.no_source)
    Windows.typed_three_files
  = Windows.typed_three_files.
Proof.
  apply (listing_error_is_never_shown Worlds.src Worlds.dst (fun _ => false)
           Worlds.no_source (MemFS.ENOENT (lit "/src"))).
  reflexivity.
Defined.

(** X17. The listing in [_on_organize] is not guarded.  With both folders
    given, when [os.listdir] of the source raises, the exception leaves the
    callback after the buttons were switched: the start button is disabled
    and the cancel button enabled, the progress value is 0, and no worker
    was made, no line logged and no dialog shown. *)
Theorem organize_listing_failure `{OS W} (w : W) (g : Gui.gui)
    (e : Exception) :
  Gui.source_var g <> [] -> Gui.dest_var g <> [] ->
  os_listdir (Gui.source_var g) w = inl e ->
  exists g',
    Gui._on_organize w g = (Raised e, g')
    /\ Gui.organize_btn g' = Gui.disabled
    /\ Gui.cancel_btn g' = Gui.normal
    /\ Gui.progress_value g' = 0
    /\ Gui.worker g' = Gui.worker g
    /\ Gui.log_text g' = Gui.log_text g
    /\ Gui.dialogs g' = Gui.dialogs g.
Proof.
  intros Hsrc Hdst Hlist. unfold Gui._on_organize.
  destruct (Gui.source_var g) as [|c src] eqn:Hs; [done|].
  destruct (Gui.dest_var g) as [|c' dst] eqn:Hd; [done|].
  simpl. rewrite Hlist. by eexists.
Qed.

Lemma organize_listing_failure_witness :
  exists g',
    Gui._on_organize Worlds.no_source Windows.typed
    = (Raised (MemFS.ENOENT (lit "/src")), g')
    /\ Gui.organize_btn g' = Gui.disabled
    /\ Gui.cancel_btn g' = Gui.normal
    /\ Gui.progress_value g' = 0
    /\ Gui.worker g' = Gui.worker Windows.typed
    /\ Gui.log_text g' = Gui.log_text Windows.typed
    /\ Gui.dialogs g' = Gui.dialogs Windows.typed.
Proof.
  apply (organize_listing_failure Worlds.no_source Windows.typed
           (MemFS.ENOENT (lit "/src")));
    (discriminate || reflexivity).
Defined.

(** ** The text of the log area *)

Section LogText.

Import Gui.
Implicit Types (marks : list bool) (msgs : list str) (g : gui).

Lemma endswith_cursor_snoc (x : str) : endswith (x ++ lit "_") (lit "_") = true.
Proof. apply endswith_suffix. by exists x. Qed.

Lemma render_ends marks msgs :
  render marks msgs = [] \/ exists x, render marks msgs = x ++ newline.
Proof.
  revert msgs. induction marks as [|b marks IH]; intros [|msg msgs];
    cbn [render]; auto.
  right. destruct (IH msgs) as [->|[x ->]].
  - exists (mark b ++ msg). by rewrite app_nil_r, <- app_assoc.
  - exists (mark b ++ msg ++ newline ++ x). by rewrite <- !app_assoc.
Qed.

Lemma render_no_cursor marks msgs :
  endswith (render marks msgs) (lit "_") = false.
Proof.
  apply not_true_is_false. rewrite endswith_suffix. intros [k Hk].
  destruct (render_ends marks msgs) as [Hnil|[x Hx]].
  - rewrite Hnil in Hk. by destruct k.
  - rewrite Hx in Hk. by apply app_inj_tail in Hk as [_ [=]].
Qed.

Lemma render_snoc marks msgs (b : bool) (msg : str) :
  length marks = length msgs ->
  render (marks ++ [b]) (msgs ++ [msg])
  = render marks msgs ++ mark b ++ msg ++ newline.
Proof.
  revert msgs. induction marks as [|b' marks IH]; intros [|msg' msgs] Hlen;
    try done.
  cbn [render app]. rewrite IH by (simpl in Hlen; lia).
  by rewrite <- !app_assoc.
Qed.

Lemma cursor_on g :
  endswith (log_text g) (lit "_") = false ->
  log_text (_animate_terminal_cursor g) = log_text g ++ lit "_".
Proof. unfold _animate_terminal_cursor. by intros ->. Qed.

Lemma cursor_off g (x : str) :
  log_text g = x ++ lit "_" ->
  log_text (_animate_terminal_cursor g) = x.
Proof.
  intros Hx. unfold _animate_terminal_cursor.
  rewrite Hx, endswith_cursor_snoc. cbn [log_text set_log].
  apply take_app_length'. rewrite length_app. simpl. lia.
Qed.

Lemma logged_snoc_log ops (msg : str) :
  logged (ops ++ [Log msg]) = logged ops ++ [msg].
Proof. unfold logged. by rewrite omap_app. Qed.

Lemma logged_snoc_blink ops : logged (ops ++ [Blink]) = logged ops.
Proof. unfold logged. rewrite omap_app. apply app_nil_r. Qed.

Lemma log_text_render (ops : list log_op) g :
  log_text g = [] ->
  exists marks (cursor : bool),
    length marks = length (logged ops)
    /\ log_text (fold_left log_step ops g)
       = render marks (logged ops) ++ mark cursor.
Proof.
  intros Hempty.
  induction ops as [|op ops IH] using rev_ind.
  - exists [], false. split; [done|]. cbn [fold_left]. by rewrite Hempty.
  - destruct IH as (marks & cursor & Hlen & Htext).
    rewrite fold_left_app.
    destruct op as [msg|]; cbn [fold_left log_step].
    + exists (marks ++ [cursor]), false.
      rewrite logged_snoc_log, !length_app, Hlen. split; [done|].
      change (log_text (_log msg ?g0)) with (log_text g0 ++ msg ++ newline).
      rewrite Htext, render_snoc by done.
      unfold mark at 3. by rewrite app_nil_r, <- !app_assoc.
    + rewrite logged_snoc_blink. destruct cursor.
      * exists marks, false. split; [done|].
        unfold mark at 1. rewrite app_nil_r.
        by apply cursor_off.
      * exists marks, true. split; [done|].
        unfold mark in Htext. rewrite app_nil_r in Htext.
        rewrite cursor_on; [by rewrite Htext|].
        rewrite Htext. apply render_no_cursor.
Qed.

End LogText.

(** X18. No cursor tick damages a logged line.  Starting from an empty log
    area, after any sequence of [_log] calls and cursor ticks, the text is
    made of the logged messages, whole and in order, each followed by a
    newline; the only other characters are cursor marks ("_"): at most one
    in front of each message, left there when the message was logged while
    the cursor was shown, and at most one at the end. *)
Theorem log_lines_stay_whole (ops : list Gui.log_op) (g : Gui.gui) :
  Gui.log_text g = [] ->
  exists marks (cursor : bool),
    length marks = length (Gui.logged ops)
    /\ Gui.log_text (fold_left Gui.log_step ops g)
       = Gui.render marks (Gui.logged ops) ++ Gui.mark cursor.
Proof. apply log_text_render. Qed.

Lemma log_lines_stay_whole_witness :
  exists marks (cursor : bool),
    length marks
    = length (Gui.logged [Gui.Log (lit "a_"); Gui.Blink; Gui.Log (lit "b");
                          Gui.Blink; Gui.Blink])
    /\ Gui.log_text
         (fold_left Gui.log_step
            [Gui.Log (lit "a_"); Gui.Blink; Gui.Log (lit "b");
             Gui.Blink; Gui.Blink]
            (Gui.Gui [] [] [] Gui.disabled Gui.normal Gui.disabled 0 100 []
               None))
       = Gui.render marks
           (Gui.logged [Gui.Log (lit "a_"); Gui.Blink; Gui.Log (lit "b");
                        Gui.Blink; Gui.Blink])
         ++ Gui.mark cursor.
Proof.
  apply (log_lines_stay_whole
           [Gui.Log (lit "a_"); Gui.Blink; Gui.Log (lit "b");
            Gui.Blink; Gui.Blink]).
  reflexivity.
Defined.

(** The cursor mark that a message is logged after stays in the text. *)
Example stray_cursor_mark :
  Gui.log_text
    (fold_left Gui.log_step
       [Gui.Log (lit "a"); Gui.Blink; Gui.Log (lit "b"); Gui.Blink; Gui.Blink]
       (Gui.Gui [] [] [] Gui.disabled Gui.normal Gui.disabled 0 100 [] None))
  = lit "a" ++ Gui.newline ++ lit "_b" ++ Gui.newline.
Proof. reflexivity. Qed.

(** ** Lines and calls, file by file *)

Section Outcomes.

Context `{OS W}.
Variables source dest : str.
Implicit Types (s : state W) (stopped : nat -> bool) (files : list str).

Lemma iteration_outcome (idx : nat) (filename : str) s :
  exists s' text group,
    iteration source dest idx filename s = (Returned tt, s')
    /\ queue_out s' = queue_out s ++ [LogLine text; Progress idx]
    /\ syscalls s' = syscalls s ++ group
    /\ file_outcome source dest filename text group.
Proof.
  unfold iteration, try_body, try_except, mbind, M_bind, mret, M_ret, put,
    ask, makedirs, move, call, set_moved_count, get_moved_count.
  simpl.
  destruct (os_path_isfile _ _); simpl.
  - fold (dest_folder_of dest filename).
    destruct (os_makedirs_exist_ok _ _) as [[e|] w1]; simpl.
    + eexists _, _, _. split; [done|]. simpl.
      split; [by rewrite <- app_assoc|]. split; [done|].
      apply outcome_no_folder.
    + destruct (shutil_move _ _ _) as [[e|] w2]; simpl.
      * eexists _, _, [_; _]. split; [done|]. simpl.
        split; [by rewrite <- app_assoc|].
        split; [by rewrite <- app_assoc|].
        apply outcome_move_raised.
      * eexists _, _, [_; _]. split; [done|]. simpl.
        split; [by rewrite <- app_assoc|].
        split; [by rewrite <- app_assoc|].
        apply outcome_moved.
  - eexists _, _, []. split; [done|]. simpl.
    split; [by rewrite <- app_assoc|]. split; [by rewrite app_nil_r|].
    apply outcome_skipped.
Qed.

Lemma for_files_outcomes stopped files : forall idx s,
  exists s' texts groups tail,
    for_files source dest stopped idx files s = (Returned tt, s')
    /\ queue_out s' = queue_out s ++ file_pairs idx texts ++ tail
    /\ syscalls s' = syscalls s ++ concat groups
    /\ outcomes source dest (take (length texts) files) texts groups
    /\ (tail = [] /\ length texts = length files
        \/ tail = [LogLine cancelled_line] /\ length texts < length files
           /\ stopped (idx + length texts) = true)
    /\ (forall i, idx <= i < idx + length texts -> stopped i = false).
Proof.
  induction files as [|filename rest IH]; intros idx s; simpl.
  - exists s, [], [], []. simpl. rewrite !app_nil_r.
    split; [done|]. split; [done|]. split; [done|].
    split; [constructor|]. split; [by left | lia].
  - destruct (stopped idx) eqn:Hstop.
    + eexists _, [], [], [LogLine cancelled_line]. split; [done|]. simpl.
      rewrite app_nil_r.
      split; [done|]. split; [done|]. split; [constructor|].
      split; [right | intros i Hi; lia].
      split; [done|]. split; [lia | by rewrite Nat.add_0_r].
    + destruct (iteration_outcome idx filename s)
        as (s1 & text & group & Hit & Hq1 & Hs1 & Hout).
      destruct (IH (S idx) s1)
        as (s' & texts & groups & tail & Hloop & Hq & Hs & Hall & Htail
            & Hnot).
      exists s', (text :: texts), (group :: groups), tail.
      split. { unfold mbind, M_bind. by rewrite Hit. }
      simpl. rewrite Hq, Hq1, Hs, Hs1, <- !app_assoc.
      split; [done|]. split; [done|]. split; [by constructor|]. split.
      * destruct Htail as [[-> Hlen]|(-> & Hlt & Hst)]; [left | right].
        -- split; [done | lia].
        -- split; [done|]. split; [lia|].
           by replace (idx + S (length texts)) with (S idx + length texts)
             by lia.
      * intros i Hi. destruct (decide (i = idx)) as [->|]; [done|].
        apply Hnot. lia.
Qed.

(** The line of a file tells whether it was moved: it begins with the
    opening bracket of a time stamp exactly when the calls made for the
    file hold a move that returned. *)
Lemma file_outcome_moved (filename text : str) (group : list syscall) :
  file_outcome source dest filename text group ->
  take 7 text = lit "[SYS] [" <-> successful_moves group = 1.
Proof.
  intros [|e|name e|timestamp name]; split; intros Heq;
    vm_compute in Heq; try discriminate Heq; reflexivity.
Qed.

Lemma outcomes_moved files texts groups :
  outcomes source dest files texts groups ->
  Forall2 (fun text group =>
             take 7 text = lit "[SYS] [" <-> successful_moves group = 1)
    texts groups.
Proof.
  induction 1 as [|filename text group files texts groups Hout _ IH];
    constructor; [by apply (file_outcome_moved filename) | done].
Qed.

End Outcomes.

(** X19. In a run that returns after its listing succeeded, the lines and
    the calls go together, file by file and in the order of the listing.
    The events are [Start], the pair of each file considered, the line of
    the cancellation when the flag was seen set, and [Done]; nothing else
    is put.  The files considered are the first of the listing: all of
    them when the flag was never seen set, and those before the iteration
    at whose head it was first seen otherwise.  For each of them: a file
    that is no longer a regular file gets the "Skipping" line and no call;
    a file whose folder cannot be made, or whose move raises, gets an
    "ERROR moving" line with the text of the exception; and a "Moved" line
    is put exactly for a move that returned, naming the file, the folder of
    its category and the name the move was given. *)
Theorem lines_match_calls `{OS W} (source dest : str) (stopped : nat -> bool)
    (w : W) (names : list str) (s' : state W) :
  os_listdir source w = inr names ->
  run source dest stopped (initial w) = (Returned tt, s') ->
  exists texts groups tail moved,
    queue_out s'
    = Start (length (regular_files source w names))
        :: file_pairs 1 texts ++ tail ++ [Done moved]
    /\ syscalls s' = prepare_calls dest ++ concat groups
    /\ outcomes source dest
         (take (length texts) (regular_files source w names)) texts groups
    /\ Forall2 (fun text group =>
                  take 7 text = lit "[SYS] [" <-> successful_moves group = 1)
         texts groups
    /\ (tail = []
        /\ length texts = length (regular_files source w names)
        \/ tail = [LogLine cancelled_line]
           /\ length texts < length (regular_files source w names)
           /\ stopped (1 + length texts) = true)
    /\ (forall i, 1 <= i < 1 + length texts -> stopped i = false).
Proof.
  intros Hlist. rewrite (run_listed _ _ _ _ _ Hlist).
  set (files := regular_files source w names).
  unfold mbind at 1, M_bind at 1.
  destruct (prepare dest (started w files)) as [[[]|e] s1] eqn:Hprep; [|done].
  apply prepare_ok in Hprep as (Hq1 & Hm1 & Hs1). simpl in *.
  destruct (for_files_outcomes source dest stopped files 1 s1)
    as (s2 & texts & groups & tail & Hloop & Hq & Hs & Hall & Htail & Hnot).
  unfold mbind, M_bind. rewrite Hloop.
  unfold get_moved_count, put. simpl. intros [= <-]. simpl.
  exists texts, groups, tail, (moved_count s2).
  rewrite Hq, Hq1, Hs, Hs1. simpl.
  split; [by rewrite <- !app_assoc|]. split; [done|]. split; [done|].
  split; [by apply (outcomes_moved source dest) in Hall|].
  split; [done|]. exact Hnot.
Qed.

Lemma lines_match_calls_witness :
  exists texts groups tail moved,
    queue_out (run Worlds.src Worlds.dst (fun i => 2 <=? i)
                 (initial Worlds.readonly_source)).2
    = Start (length (regular_files Worlds.src Worlds.readonly_source
                       [lit "photo.png"; lit "doc.pdf"]))
        :: file_pairs 1 texts ++ tail ++ [Done moved]
    /\ syscalls (run Worlds.src Worlds.dst (fun i => 2 <=? i)
                   (initial Worlds.readonly_source)).2
       = prepare_calls Worlds.dst ++ concat groups
    /\ outcomes Worlds.src Worlds.dst
         (take (length texts)
            (regular_files Worlds.src Worlds.readonly_source
               [lit "photo.png"; lit "doc.pdf"]))
         texts groups
    /\ Forall2 (fun text group =>
                  take 7 text = lit "[SYS] [" <-> successful_moves group = 1)
         texts groups
    /\ (tail = []
        /\ length texts
           = length (regular_files Worlds.src Worlds.readonly_source
                       [lit "photo.png"; lit "doc.pdf"])
        \/ tail = [LogLine cancelled_line]
           /\ length texts
              < length (regular_files Worlds.src Worlds.readonly_source
                          [lit "photo.png"; lit "doc.pdf"])
           /\ (2 <=? 1 + length texts) = true)
    /\ (forall i, 1 <= i < 1 + length texts -> (2 <=? i) = false).
Proof.
  apply (lines_match_calls Worlds.src Worlds.dst (fun i => 2 <=? i)
           Worlds.readonly_source [lit "photo.png"; lit "doc.pdf"]);
    vm_compute; reflexivity.
Defined.

(** ** Cancellation from the window *)

Section Cancel.

Import Gui.
Context `{OS W}.
Implicit Types (g : gui) (a : action W).

Lemma log_worker (msg : str) g : worker (_log msg g) = worker g.
Proof. done. Qed.

Lemma process_queue_worker (batch : list event) : forall g,
  worker (_process_queue batch g) = worker g.
Proof.
  induction batch as [|item batch IH]; intros g; [done|].
  simpl. rewrite IH. by destruct item.
Qed.

Lemma act_cancel_requested g a :
  quiet a -> organize_btn g = disabled ->
  cancel_requested g -> cancel_requested (act g a).
Proof.
  intros Hq Hbtn (wk & Hwk & Hstop). unfold cancel_requested.
  destruct a as [folder|folder|text|text|w|is_alive|batch|]; simpl.
  - destruct folder; eauto.
  - destruct folder; eauto.
  - eauto.
  - eauto.
  - rewrite Hbtn. eauto.
  - destruct (cancel_btn g); [|eauto].
    unfold _on_cancel. rewrite Hwk. destruct is_alive; simpl; eauto.
  - rewrite process_queue_worker. eauto.
  - unfold _animate_terminal_cursor. destruct (endswith _ _); simpl; eauto.
Qed.

End Cancel.

(** X20. A click on the cancel button while the worker is alive sets the
    stop event of the worker that the window holds ([stop]), and the request
    is not forgotten: with the start button disabled, as it is during a
    run, [stopped] keeps answering true through every later click, folder
    choice, cursor tick and batch of queue items without a "done". *)
Theorem cancel_is_not_forgotten `{OS W} (g : Gui.gui)
    (wk : Gui.OrganizerWorker) (actions : list (Gui.action W)) :
  Gui.worker g = Some wk ->
  Gui.organize_btn g = Gui.disabled ->
  Forall Gui.quiet actions ->
  Gui.cancel_requested (fold_left Gui.act actions (Gui._on_cancel true g)).
Proof.
  intros Hwk Hbtn Hq.
  assert (Gui.cancel_requested (Gui._on_cancel true g)) as Hreq.
  { unfold Gui._on_cancel. rewrite Hwk. by exists (Gui.stop wk). }
  assert (Gui.organize_btn (Gui._on_cancel true g) = Gui.disabled) as Hbtn'.
  { by destruct (on_cancel_buttons true g) as [-> _]. }
  revert Hreq Hbtn'. generalize (Gui._on_cancel true g).
  induction Hq as [|a actions Ha _ IH]; intros g' Hreq Hbtn'; [done|].
  simpl. apply IH.
  - by apply act_cancel_requested.
  - by apply act_locked.
Qed.

Lemma cancel_is_not_forgotten_witness :
  Gui.cancel_requested
    (fold_left Gui.act
       [Gui.Tick; Gui.ClickCancel true;
        Gui.ClickOrganize Worlds.three_files;
        Gui.Drain [LogLine (lit "x"); Progress 1]]
       (Gui._on_cancel true Windows.typed_three_files)).
Proof.
  apply (cancel_is_not_forgotten Windows.typed_three_files
           (Gui.Worker Worlds.src Worlds.dst false)).
  - reflexivity.
  - reflexivity.
  - repeat constructor; discriminate.
Defined.
